(** * setup-cpp: version resolution, artifact location, installation fallback

    A shallow embedding of the TypeScript sources of setup-cpp:
    - [LlvmUrl]    : the LLVM artifact locator (version registry,
                     per-platform URL builders, candidate loop);
    - [Versions]   : [getVersion], [getDefaultLinuxVersion], [syncVersions];
    - [Brew]       : [setupBrew] and its module variable [binDir];
    - [Memo]       : micro-memoize, as llvm.ts uses it;
    - [Llvm]       : [setupLLVMOnly], [setupLLVMWithoutActivation] and the
                     functions around them;
    - [Activation] : [activateLLVM] and [setupMacOSSDK];
    - [RcFile]     : [finalizeRC];
    - [Pip]        : [setupPipPackWithPython] and [setupPipPackSystem].

    JavaScript strings are [string]; objects used as dictionaries are [gmap];
    a [Set] is its list of members in insertion order; a function that may
    throw returns a [result]; an [async] function that acts on the host is
    a function on states, [eff].  The definitions come first, the
    properties after them. *)

From Stdlib Require Import ZArith NArith Ascii String List.
From stdpp Require Import base option list gmap strings sorting.

Local Open Scope Z_scope.

(** ** Exceptions and the result monad *)

Inductive exn : Type :=
| Error (message : string)
| TypeError (message : string).

Inductive result (A : Type) : Type :=
| Ok (a : A)
| Throw (e : exn).
Arguments Ok {A} a.
Arguments Throw {A} e.

#[global] Instance result_ret : MRet result := fun _ a => Ok a.
#[global] Instance result_bind : MBind result := fun _ _ f m =>
  match m with
  | Ok a => f a
  | Throw e => Throw e
  end.

Definition is_Ok {A} (r : result A) : bool :=
  match r with Ok _ => true | Throw _ => false end.

(** ** JavaScript strings, regular expressions and sets *)

Module JS.

Definition isDigit (c : ascii) : bool :=
  (48 <=? nat_of_ascii c)%nat && (nat_of_ascii c <=? 57)%nat.

(** Longest prefix of digits, and the rest. *)
Fixpoint spanDigits (s : string) : string * string :=
  match s with
  | String c s' =>
      if isDigit c
      then let '(d, r) := spanDigits s' in (String c d, r)
      else (EmptyString, s)
  | EmptyString => (EmptyString, EmptyString)
  end.

(** [/^\d+/]: the match and what follows it. *)
Definition digits1 (s : string) : option (string * string) :=
  match spanDigits s with
  | (EmptyString, _) => None
  | (d, r) => Some (d, r)
  end.

(** [/^\d+/.exec(s)[0]] *)
Definition execMajor (s : string) : option string :=
  fst <$> digits1 s.

(** [/^\d+\.\d+/.exec(s)[0]] *)
Definition execMajorMinor (s : string) : option string :=
  match digits1 s with
  | Some (a, String "."%char r) =>
      match digits1 r with
      | Some (b, _) => Some (a +:+ "." +:+ b)
      | None => None
      end
  | _ => None
  end.

(** [/^\d+\.\d+\.\d+$/.test(s)] *)
Definition testSpecific (s : string) : bool :=
  match digits1 s with
  | Some (_, String "."%char r) =>
      match digits1 r with
      | Some (_, String "."%char r') =>
          match digits1 r' with
          | Some (_, EmptyString) => true
          | _ => false
          end
      | _ => false
      end
  | _ => false
  end.

(** [s.startsWith(p)] *)
Definition startsWith (s p : string) : bool := String.prefix p s.

(** [s.includes(sub)] *)
Fixpoint includes (s sub : string) : bool :=
  String.prefix sub s ||
  match s with
  | String _ s' => includes s' sub
  | EmptyString => false
  end.

(** [s.split(sep)] for a one-character separator. *)
Fixpoint split (sep : ascii) (s : string) : list string :=
  match s with
  | EmptyString => [EmptyString]
  | String c s' =>
      if Ascii.eqb c sep then EmptyString :: split sep s'
      else match split sep s' with
           | w :: ws => String c w :: ws
           | [] => [String c EmptyString]
           end
  end.

(** An interpolated value in a template literal: [undefined] prints as
    its name. *)
Definition interpolate (v : option string) : string :=
  default "undefined" v.

(** The order of [Array.prototype.sort()] without a comparator: code
    units, lexicographically. *)
Definition lexle (a b : string) : Prop := String.leb a b = true.

#[global] Instance lexle_dec : RelDecision lexle.
Proof. intros a b. unfold lexle. apply _. Defined.

Definition sort (l : list string) : list string := merge_sort lexle l.

End JS.

(** A JavaScript [Set] of strings: its members in insertion order. *)
Module JSSet.

Definition t := list string.

Definition has (s : t) (x : string) : bool := existsb (String.eqb x) s.

Definition add (s : t) (x : string) : t :=
  if has s x then s else s ++ [x].

(** [new Set(array)] *)
Definition of_array (l : list string) : t := foldl add [] l.

End JSSet.

(** ** The [semver] package: [semver/functions/lte]

    A version is [MAJOR.MINOR.PATCH] with an optional [-prerelease] of
    dot-separated identifiers; any other string is invalid and makes [lte]
    throw.  Build metadata, a leading [v] and surrounding blanks, which the
    package also accepts, are never passed by this program and count as
    invalid here. *)

Module Semver.

Record version := {
  major : N;
  minor : N;
  patch : N;
  prerelease : list string
}.

Definition digitVal (c : ascii) : N := N.of_nat (nat_of_ascii c - 48).

Fixpoint allDigits (s : string) : bool :=
  match s with
  | EmptyString => true
  | String c s' => JS.isDigit c && allDigits s'
  end.

Fixpoint numValue (acc : N) (s : string) : N :=
  match s with
  | EmptyString => acc
  | String c s' => numValue (10 * acc + digitVal c)%N s'
  end.

(** A numeric identifier: [0|[1-9]\d*].  The package also bounds its
    length and value; no version of this program comes near the bounds. *)
Definition numericId (s : string) : option N :=
  match s with
  | EmptyString => None
  | String "0"%char EmptyString => Some 0%N
  | String "0"%char _ => None
  | _ => if allDigits s then Some (numValue 0%N s) else None
  end.

Definition isIdChar (c : ascii) : bool :=
  let n := nat_of_ascii c in
  JS.isDigit c
  || ((65 <=? n)%nat && (n <=? 90)%nat)
  || ((97 <=? n)%nat && (n <=? 122)%nat)
  || (n =? 45)%nat.

Fixpoint allIdChars (s : string) : bool :=
  match s with
  | EmptyString => true
  | String c s' => isIdChar c && allIdChars s'
  end.

(** A prerelease identifier: numeric, or alphanumeric with hyphens. *)
Definition validPreId (s : string) : bool :=
  match s with
  | EmptyString => false
  | _ => if allDigits s then bool_decide (is_Some (numericId s))
         else allIdChars s
  end.

(** Cut a string at its first hyphen. *)
Fixpoint cutHyphen (s : string) : string * option string :=
  match s with
  | EmptyString => (EmptyString, None)
  | String c s' =>
      if Ascii.eqb c "-"%char then (EmptyString, Some s')
      else let '(m, p) := cutHyphen s' in (String c m, p)
  end.

Definition parse (s : string) : option version :=
  let '(main, pre) := cutHyphen s in
  match JS.split "."%char main with
  | [a; b; c] =>
      ma ← numericId a; mi ← numericId b; pa ← numericId c;
      match pre with
      | None => Some {| major := ma; minor := mi; patch := pa; prerelease := [] |}
      | Some p =>
          let ids := JS.split "."%char p in
          if forallb validPreId ids
          then Some {| major := ma; minor := mi; patch := pa; prerelease := ids |}
          else None
      end
  | _ => None
  end.

Definition compareId (a b : string) : comparison :=
  match numericId a, numericId b with
  | Some x, Some y => (x ?= y)%N
  | Some _, None => Lt
  | None, Some _ => Gt
  | None, None => String.compare a b
  end.

Fixpoint comparePreIds (a b : list string) : comparison :=
  match a, b with
  | [], [] => Eq
  | [], _ :: _ => Lt
  | _ :: _, [] => Gt
  | x :: a', y :: b' =>
      match compareId x y with
      | Eq => comparePreIds a' b'
      | c => c
      end
  end.

(** A release is greater than any of its prereleases. *)
Definition comparePre (a b : list string) : comparison :=
  match a, b with
  | [], [] => Eq
  | [], _ :: _ => Gt
  | _ :: _, [] => Lt
  | _, _ => comparePreIds a b
  end.

Definition compareMain (a b : version) : comparison :=
  match (major a ?= major b)%N with
  | Eq => match (minor a ?= minor b)%N with
          | Eq => (patch a ?= patch b)%N
          | c => c
          end
  | c => c
  end.

Definition compare (a b : version) : comparison :=
  match compareMain a b with
  | Eq => comparePre (prerelease a) (prerelease b)
  | c => c
  end.

(** [semverLte(a, b)] *)
Definition lte (a b : string) : result bool :=
  match parse a, parse b with
  | Some va, Some vb =>
      Ok (match compare va vb with Gt => false | _ => true end)
  | None, _ => Throw (TypeError ("Invalid Version: " +:+ a))
  | _, None => Throw (TypeError ("Invalid Version: " +:+ b))
  end.

End Semver.

(** ** The LLVM artifact locator (llvm_url) *)

Module LlvmUrl.

(** Gets the specific and minimum LLVM versions that can be used to refer
    to the supplied specific LLVM versions.  [None] when a regular
    expression does not match (the non-null assertion then throws). *)
Definition getVersions (specific : list string) : option JSSet.t :=
  foldl (fun acc version =>
           versions ← acc;
           ma ← JS.execMajor version;
           mm ← JS.execMajorMinor version;
           Some (JSSet.add (JSSet.add versions ma) mm))
        (Some (JSSet.of_array specific)) specific.

Definition SPECIFIC : list string :=
  [ "3.5.0"; "3.5.1"; "3.5.2"; "3.6.0"; "3.6.1"; "3.6.2"; "3.7.0"; "3.7.1";
    "3.8.0"; "3.8.1"; "3.9.0"; "3.9.1"; "4.0.0"; "4.0.1"; "5.0.0"; "5.0.1";
    "5.0.2"; "6.0.0"; "6.0.1"; "7.0.0"; "7.0.1"; "7.1.0"; "8.0.0"; "8.0.1";
    "9.0.0"; "9.0.1"; "10.0.0"; "10.0.1"; "11.0.0"; "11.0.1"; "11.1.0";
    "12.0.0"; "12.0.1" ].

(** The specific and minimum LLVM versions supported by this action. *)
Definition VERSIONS : JSSet.t :=
  Eval vm_compute in default [] (getVersions SPECIFIC).

(** Gets the specific LLVM versions compatible with the supplied (specific
    or minimum) LLVM version in descending order of release. *)
Definition getSpecificVersions (version : string) : list string :=
  reverse
    (JS.sort
       (filter (fun v => JS.testSpecific v && JS.startsWith v version = true)
               VERSIONS)).

(** Gets a LLVM download URL for GitHub. *)
Definition getGitHubUrl (version prefix suffix : string) : string :=
  let file := prefix +:+ version +:+ suffix in
  "https://github.com/llvm/llvm-project/releases/download/llvmorg-"
    +:+ version +:+ "/" +:+ file.

(** Gets a LLVM download URL for https://releases.llvm.org. *)
Definition getReleaseUrl (version prefix suffix : string) : string :=
  let file := prefix +:+ version +:+ suffix in
  "https://releases.llvm.org/" +:+ version +:+ "/" +:+ file.

(** The LLVM versions that were never released for the Darwin platform. *)
Definition DARWIN_MISSING : JSSet.t :=
  JSSet.of_array
    [ "3.5.1"; "3.6.1"; "3.6.2"; "3.7.1"; "3.8.1"; "3.9.1"; "6.0.1";
      "7.0.1"; "7.1.0"; "8.0.1"; "11.0.1"; "11.1.0"; "12.0.1" ].

(** Gets an LLVM download URL for the Darwin platform. *)
Definition getDarwinUrl (version : string) : result (option string) :=
  if JSSet.has DARWIN_MISSING version then Ok None
  else
    let darwin :=
      if String.eqb version "9.0.0" then "-darwin-apple" else "-apple-darwin" in
    let prefix := "clang+llvm-" in
    let suffix := "-x86_64" +:+ darwin +:+ ".tar.xz" in
    le ← Semver.lte version "9.0.1";
    if le : bool
    then Ok (Some (getReleaseUrl version prefix suffix))
    else Ok (Some (getGitHubUrl version prefix suffix)).

(** The LLVM versions that should use the last RC version instead of the
    release version for the Linux (Ubuntu) platform. *)
Definition UBUNTU_RC : gmap string string :=
  list_to_map [ ("12.0.1", "12.0.1-rc4") ].

(** The (latest) Ubuntu versions for each LLVM version. *)
Definition UBUNTU : gmap string string :=
  list_to_map
    [ ("3.5.0", "-ubuntu-14.04"); ("3.5.1", ""); ("3.5.2", "-ubuntu-14.04");
      ("3.6.0", "-ubuntu-14.04"); ("3.6.1", "-ubuntu-14.04");
      ("3.6.2", "-ubuntu-14.04"); ("3.7.0", "-ubuntu-14.04");
      ("3.7.1", "-ubuntu-14.04"); ("3.8.0", "-ubuntu-16.04");
      ("3.8.1", "-ubuntu-16.04"); ("3.9.0", "-ubuntu-16.04");
      ("3.9.1", "-ubuntu-16.04"); ("4.0.0", "-ubuntu-16.04");
      ("5.0.0", "-ubuntu16.04"); ("5.0.1", "-ubuntu-16.04");
      ("5.0.2", "-ubuntu-16.04"); ("6.0.0", "-ubuntu-16.04");
      ("6.0.1", "-ubuntu-16.04"); ("7.0.0", "-ubuntu-16.04");
      ("7.0.1", "-ubuntu-18.04"); ("7.1.0", "-ubuntu-14.04");
      ("8.0.0", "-ubuntu-18.04"); ("9.0.0", "-ubuntu-18.04");
      ("9.0.1", "-ubuntu-16.04"); ("10.0.0", "-ubuntu-18.04");
      ("10.0.1", "-ubuntu-16.04"); ("11.0.0", "-ubuntu-20.04");
      ("11.0.1", "-ubuntu-16.04"); ("11.1.0", "-ubuntu-16.04");
      ("12.0.0", "-ubuntu-20.04"); ("12.0.1-rc4", "-ubuntu-21.04") ].

(** The latest supported LLVM version for the Linux (Ubuntu) platform. *)
Definition MAX_UBUNTU : string := "12.0.1-rc4".

(** Gets an LLVM download URL for the Linux (Ubuntu) platform.

    [version in UBUNTU] also holds for the property names every object
    inherits ([constructor], [toString], ...); none of them is a version,
    so [semverLte] throws on them whichever branch chose [ubuntu], and
    the own keys of the table decide here. *)
Definition getLinuxUrl (versionGiven : string) : result string :=
  let version := default versionGiven (UBUNTU_RC !! versionGiven) in
  let ubuntu :=
    if JS.includes version "ubuntu" then version
    else if negb (String.eqb version "") && bool_decide (is_Some (UBUNTU !! version))
         then JS.interpolate (UBUNTU !! version)
         else JS.interpolate (UBUNTU !! MAX_UBUNTU) in
  let prefix := "clang+llvm-" in
  let suffix :=
    if String.eqb version "5.0.0"
    then "-linux-x86_64" +:+ ubuntu +:+ ".tar.xz"
    else "-x86_64-linux-gnu" +:+ ubuntu +:+ ".tar.xz" in
  le ← Semver.lte version "9.0.1";
  if le : bool
  then Ok (getReleaseUrl version prefix suffix)
  else Ok (getGitHubUrl version prefix suffix).

(** The LLVM versions that were never released for the Windows platform. *)
Definition WIN32_MISSING : JSSet.t := JSSet.of_array [ "10.0.1" ].

Section Locator.

(** The network existence probe, [isValidUrl]. *)
Variable isValidUrl : string -> bool.

(** Gets an LLVM download URL for the Windows platform. *)
Definition getWin32Url (version : string) : result (option string) :=
  if JSSet.has WIN32_MISSING version then Ok None
  else
    let prefix := "LLVM-" in
    le37 ← Semver.lte version "3.7.0";
    let suffix := if le37 : bool then "-win32.exe" else "-win64.exe" in
    olderThan9_1 ← Semver.lte version "9.0.1";
    let fallback :=
      if olderThan9_1 : bool
      then negb (isValidUrl (getReleaseUrl version prefix suffix))
      else false in
    if fallback || negb olderThan9_1
    then Ok (Some (getGitHubUrl version prefix suffix))
    else Ok (Some (getReleaseUrl version prefix suffix)).

(** Gets an LLVM download URL. *)
Definition getUrl (platform version : string) : result (option string) :=
  if String.eqb platform "darwin" then getDarwinUrl version
  else if String.eqb platform "linux" then url ← getLinuxUrl version; Ok (Some url)
  else if String.eqb platform "win32" then getWin32Url version
  else Ok None.

Definition unsupportedTarget (platform version : string) : exn :=
  Error ("Unsupported target! (platform='" +:+ platform
         +:+ "', version='" +:+ version +:+ "')").

(** The [for ... of] loop over the candidates, with its early return;
    [None] when the loop falls through. *)
Fixpoint firstValid (platform : string) (candidates : list string)
  : result (option (string * string)) :=
  match candidates with
  | [] => Ok None
  | specificVersion :: rest =>
      url ← getUrl platform specificVersion;
      match url with
      | Some u =>
          if isValidUrl u then Ok (Some (specificVersion, u))
          else firstValid platform rest
      | None => firstValid platform rest
      end
  end.

(** Gets the most recent specific LLVM version for which there is a
    valid download URL. *)
Definition getSpecificVersionAndUrl (platform version : string)
  : result (string * string) :=
  if negb (JSSet.has VERSIONS version)
  then Throw (unsupportedTarget platform version)
  else
    found ← firstValid platform (getSpecificVersions version);
    match found with
    | Some r => Ok r
    | None => Throw (unsupportedTarget platform version)
    end.

End Locator.

End LlvmUrl.

(** ** Version resolution (versions) *)

Module Versions.

(** Descending order of numbers, the comparator [(a, b) => b - a]. *)
Definition descZ (a b : Z) : Prop := b ≤ a.

#[global] Instance descZ_dec : RelDecision descZ.
Proof. intros a b. unfold descZ. apply _. Defined.

Definition isVersionDefault (version : option string) : bool :=
  match version with
  | Some v => String.eqb v "true"
  | None => true
  end.

(** Choose the default linux version based on ubuntu version.  The keys
    of the table are OS major versions; the key found is one of them, so
    the final lookup is defined. *)
Definition getDefaultLinuxVersion
    (osVersion : list Z) (toolLinuxVersions : gmap Z string) : string :=
  let osVersionMaj := osVersion !! 0%nat in
  let satisfyingVersion :=
    List.find
      (λ v, match osVersionMaj with
            | Some maj => bool_decide (v ≤ maj)
            | None => false
            end)
      (merge_sort descZ (map_to_list toolLinuxVersions).*1) in
  match satisfyingVersion with
  | None => ""
  | Some v => default "" (toolLinuxVersions !! v)
  end.

Section Resolver.

(** [process.platform] and the tables of default_versions.  A tool name
    is one of the action's inputs; none is the name of a property that
    every object inherits, so [name in table] is a lookup of the
    table's own keys. *)
Variable platform : string.
Variable DefaultUbuntuVersion : gmap string (gmap Z string).
Variable DefaultVersions : gmap string string.

(** Get the default version if passed true or undefined, otherwise
    return the version itself. *)
Definition getVersion
    (name : string) (version : option string) (osVersion : option (list Z))
  : string :=
  if isVersionDefault version && String.eqb platform "linux"
     && bool_decide (is_Some osVersion)
     && bool_decide (is_Some (DefaultUbuntuVersion !! name))
  then getDefaultLinuxVersion (default [] osVersion)
                              (default ∅ (DefaultUbuntuVersion !! name))
  else if isVersionDefault version
          && bool_decide (is_Some (DefaultVersions !! name))
  then default "" (DefaultVersions !! name)
  else if bool_decide (version = Some "true") then ""
  else default "" version.

End Resolver.

(** Sync the versions for the given inputs.  If the return is false, it
    means that versions don't match the target version.  The options
    object is updated in place: the result carries it. *)
Definition syncVersions (opts : gmap string string) (tools : list string)
  : bool * gmap string string :=
  let toolsInUse := filter (λ tool, is_Some (opts !! tool)) tools in
  let toolsNonDefaultVersion :=
    filter (λ tool, isVersionDefault (opts !! tool) = false) toolsInUse in
  let targetVersion :=
    match toolsNonDefaultVersion with
    | tool :: _ => opts !! tool
    | [] => Some "true"
    end in
  if existsb (λ tool, bool_decide (opts !! tool ≠ targetVersion))
             toolsNonDefaultVersion
  then (false, opts)
  else (true,
        foldl (λ o tool, partial_alter (λ _, targetVersion) tool o)
              opts toolsInUse).

End Versions.

(** ** Effects: state and exceptions

    An [async] function that is awaited before the next one starts is a
    function from the state before to a result and the state after; a
    rejected promise is a [Throw]. *)

Definition eff (S A : Type) : Type := S → result A * S.

#[global] Instance eff_ret {S} : MRet (eff S) := λ _ a s, (Ok a, s).
#[global] Instance eff_bind {S} : MBind (eff S) := λ _ _ f m s,
  match m s with
  | (Ok a, s') => f a s'
  | (Throw e, s') => (Throw e, s')
  end.

Definition throw {S A} (e : exn) : eff S A := λ s, (Throw e, s).

(** [try { body } catch (err) { handler }] *)
Definition try_catch {S A} (body : eff S A) (handler : exn → eff S A) : eff S A :=
  λ s, match body s with
       | (Ok a, s') => (Ok a, s')
       | (Throw e, s') => handler e s'
       end.

Definition gets {S A} (f : S → A) : eff S A := λ s, (Ok (f s), s).
Definition modify {S} (f : S → S) : eff S unit := λ s, (Ok tt, f s).
Definition liftResult {S A} (r : result A) : eff S A := λ s, (r, s).

(** An error interpolated in a template literal. *)
Definition exnToString (e : exn) : string :=
  match e with
  | Error m => "Error: " +:+ m
  | TypeError m => "TypeError: " +:+ m
  end.

Module Install.

(** [InstallationInfo] of setupBin. *)
Record Info := {
  installDir : option string;
  binDir : string;
  bin : option string
}.

#[global] Instance Info_eq_dec : EqDecision Info.
Proof. solve_decision. Defined.

End Install.

(** ** Homebrew (brew) *)

Module Brew.

(** What the process did to its host, in order. *)
Inductive event : Type :=
| Which
| Download
| RunInstaller
| AddPath (dir : string).

#[global] Instance event_eq_dec : EqDecision event.
Proof. solve_decision. Defined.

(** The host: [process.platform], [process.arch], and the outcome of each
    external step, which may depend on everything done before. *)
Record host := {
  platform : string;
  arch : string;
  whichBrew : list event → option string;
  download : list event → result unit;
  installer : list event → result unit;
  addPath : list event → result unit;
  dirname : string → string
}.

(** The module variable [binDir] and the trace of the process. *)
Record process := {
  binDir : option string;
  trace : list event
}.

Definition initial : process := {| binDir := None; trace := [] |}.

Definition emit (e : event) (p : process) : process :=
  {| binDir := binDir p; trace := trace p ++ [e] |}.

Definition setBinDir (d : string) : eff process unit :=
  modify (λ p, {| binDir := Some d; trace := trace p |}).

(** An external step that answers. *)
Definition ask {A} (answer : list event → A) (e : event) : eff process A :=
  λ p, (Ok (answer (trace p)), emit e p).

(** An external step that succeeds or throws. *)
Definition perform (outcome : list event → result unit) (e : event)
  : eff process unit :=
  λ p, (outcome (trace p), emit e p).

Section Brew.

Variable h : host.

(** Get the path where brew is installed. *)
Definition getBrewPath : result string :=
  if String.eqb (platform h) "darwin" then
    if String.eqb (arch h) "arm64" then Ok "/opt/homebrew/bin/"
    else Ok "/usr/local/bin/"
  else if String.eqb (platform h) "linux" then
    Ok "/home/linuxbrew/.linuxbrew/bin/"
  else Throw (Error "Unsupported platform for brew").

Definition info (d : string) : Install.Info :=
  {| Install.installDir := None; Install.binDir := d; Install.bin := None |}.

(** [setupBrew]; [None] is the result [undefined]. *)
Definition setupBrew (_version _setupDir _arch : string)
  : eff process (option Install.Info) :=
  (* brew is only available on darwin and linux *)
  if negb (bool_decide (platform h ∈ ["darwin"; "linux"])) then mret None
  else
    (* check if the function has already been called *)
    cached ← gets binDir;
    match cached with
    | Some d => mret (Some (info d))
    | None =>
        (* check if brew is already installed *)
        maybeBinDir ← ask (whichBrew h) Which;
        match maybeBinDir with
        | Some path =>
            setBinDir (dirname h path);;
            mret (Some (info (dirname h path)))
        | None =>
            (* download the installation script *)
            try_catch (perform (download h) Download)
              (λ err, throw (Error ("Failed to download the brew installer script: "
                                    +:+ exnToString err)));;
            (* brew installation is not thread-safe *)
            perform (installer h) RunInstaller;;
            (* add the bin directory to the PATH *)
            d ← liftResult getBrewPath;
            setBinDir d;;
            perform (addPath h) (AddPath d);;
            mret (Some (info d))
        end
    end.

End Brew.

(** How often the installer script was run. *)
Definition installerRuns (p : process) : nat :=
  length (filter (λ e, e = RunInstaller) (trace p)).

End Brew.

(** ** micro-memoize with [{ isPromise: true }]

    The cache holds the [maxSize] most recent keys with their values, most
    recent first; a hit moves its entry to the front.  A call that misses
    puts the promise in front and drops what exceeds [maxSize]; when the
    promise rejects, its entry is removed again.  Every call here is
    awaited before the next one. *)

Module Memo.

Section Memoize.

Context {K V S : Type} `{EqDecision K}.

(** The option [maxSize]. *)
Variable maxSize : nat.

(** Where the cache of this memoised function lives in the state. *)
Variable getCache : S → list (K * V).
Variable setCache : list (K * V) → S → S.

Variable fn : K → eff S V.

Fixpoint lookup (k : K) (cache : list (K * V)) : option V :=
  match cache with
  | [] => None
  | (k', v) :: rest => if decide (k = k') then Some v else lookup k rest
  end.

Fixpoint remove (k : K) (cache : list (K * V)) : list (K * V) :=
  match cache with
  | [] => []
  | (k', v) :: rest => if decide (k = k') then rest else (k', v) :: remove k rest
  end.

Definition memoize (k : K) : eff S V :=
  λ s,
    match lookup k (getCache s) with
    | Some v => (Ok v, setCache ((k, v) :: remove k (getCache s)) s)
    | None =>
        match fn k s with
        | (Ok v, s') => (Ok v, setCache (take maxSize ((k, v) :: getCache s')) s')
        | (Throw e, s') =>
            (Throw e, setCache (take (pred maxSize) (getCache s')) s')
        end
    end.

End Memoize.

End Memo.

(** ** LLVM installation (llvm) *)

Module Llvm.

(** [Number.parseInt(s, 10)]; [None] is [NaN]. *)
Definition digitsValue (s : string) : option Z :=
  match JS.digits1 s with
  | Some (d, _) => Some (Z.of_N (Semver.numValue 0%N d))
  | None => None
  end.

Fixpoint skipBlanks (s : string) : string :=
  match s with
  | String c s' => if Ascii.eqb c " "%char then skipBlanks s' else s
  | EmptyString => EmptyString
  end.

Definition parseInt (s : string) : option Z :=
  match skipBlanks s with
  | String "-"%char r => Z.opp <$> digitsValue r
  | String "+"%char r => digitsValue r
  | r => digitsValue r
  end.

Section Setup.

(** The host system, and the helpers of other modules that act on it. *)
Variable W : Type.
Variable LLVMPackages : Type.
Variable LLVMPackages_All : LLVMPackages.
Variable LLVMPackages_ClangFormat : LLVMPackages.
Variable platform : string.
Variable GITHUB_ACTIONS : bool.
Variable matcherPath : string.
Variable isUbuntu : W → bool.
Variable pathExists : string → W → bool.
(** Logging ([info], [warning] of ci-log) changes the output only. *)
Variable info : string → W → W.
Variable warning : string → W → W.
Variable semverCoerceIfInvalid : string → string.
Variable setupLLVMApt : option Z → LLVMPackages → eff W Install.Info.
Variable setupBin : string → string → string → string → eff W Install.Info.
Variable setupAptPack : list string → eff W unit.
Variable setupGcc : string → string → string → Z → eff W unit.
Variable ubuntuVersion : eff W (option (list Z)).
Variable DefaultUbuntuVersion : gmap string (gmap Z string).
Variable DefaultVersions : gmap string string.

(** The option [maxSize] of micro-memoize, left at its default by
    llvm.ts. *)
Variable maxSize : nat.

(** The host together with the caches of the three memoised functions. *)
Record state := {
  world : W;
  binaryDepsCache : list (option Z * unit);
  depsCache : list (string * unit);
  setupCache : list (string * string * string * Install.Info)
}.

Definition setWorld (w : W) (s : state) : state :=
  {| world := w; binaryDepsCache := binaryDepsCache s;
     depsCache := depsCache s; setupCache := setupCache s |}.
Definition setBinaryDepsCache (c : list (option Z * unit)) (s : state) : state :=
  {| world := world s; binaryDepsCache := c;
     depsCache := depsCache s; setupCache := setupCache s |}.
Definition setDepsCache (c : list (string * unit)) (s : state) : state :=
  {| world := world s; binaryDepsCache := binaryDepsCache s;
     depsCache := c; setupCache := setupCache s |}.
Definition setSetupCache
    (c : list (string * string * string * Install.Info)) (s : state) : state :=
  {| world := world s; binaryDepsCache := binaryDepsCache s;
     depsCache := depsCache s; setupCache := c |}.

Definition lift {A} (m : eff W A) : eff state A :=
  λ s, let '(r, w) := m (world s) in (r, setWorld w s).

Definition log (f : W → W) : eff state unit :=
  modify (λ s, setWorld (f (world s)) s).

Definition llvmBinaryDeps_raw (majorVersion : option Z) : eff state unit :=
  ubuntu ← gets (λ s, isUbuntu (world s));
  if ubuntu : bool then
    if match majorVersion with Some m => bool_decide (m ≤ 10) | None => false end
    then lift (setupAptPack ["libtinfo5"])
    else lift (setupAptPack ["libtinfo-dev"])
  else mret tt.

Definition llvmBinaryDeps : option Z → eff state unit :=
  Memo.memoize maxSize binaryDepsCache setBinaryDepsCache llvmBinaryDeps_raw.

Definition setupLLVMOnly
    (version setupDir arch : string) (packages : LLVMPackages)
  : eff state Install.Info :=
  let coeredVersion := semverCoerceIfInvalid version in
  let majorVersion := parseInt (hd "" (JS.split "."%char coeredVersion)) in
  (* [Some] is the [return] inside the [try] block *)
  returned ←
    try_catch
      (ubuntu ← gets (λ s, isUbuntu (world s));
       if ubuntu : bool then
         installationInfo ← lift (setupLLVMApt majorVersion packages);
         mret (Some installationInfo)
       else mret None)
      (λ err,
         log (info ("Failed to install llvm via system package manager "
                    +:+ exnToString err));;
         mret None);
  match returned with
  | Some installationInfo => mret installationInfo
  | None =>
      installationInfo ← lift (setupBin "llvm" version setupDir arch);
      llvmBinaryDeps majorVersion;;
      mret installationInfo
  end.

Definition setupLLVMDeps_raw (arch : string) : eff state unit :=
  if String.eqb platform "linux" then
    (* using llvm requires ld, an up to date libstdc++, etc. So, install
       gcc first, but with a lower priority than the one used by
       activateLLVM() *)
    osVersion ← lift ubuntuVersion;
    lift (setupGcc
            (Versions.getVersion platform DefaultUbuntuVersion DefaultVersions
                                 "gcc" None osVersion)
            "" arch 40)
  else mret tt.

Definition setupLLVMDeps : string → eff state unit :=
  Memo.memoize maxSize depsCache setDepsCache setupLLVMDeps_raw.

Definition addLLVMLoggingMatcher : eff state unit :=
  if GITHUB_ACTIONS then
    found ← gets (λ s, pathExists matcherPath (world s));
    if found : bool
    then log (info ("::add-matcher::" +:+ matcherPath))
    else log (warning "the llvm_matcher.json file does not exist in the same folder as setup-cpp.js")
  else mret tt.

(** The two promises of [Promise.all] are run one after the other. *)
Definition setupLLVMWithoutActivation_raw (key : string * string * string)
  : eff state Install.Info :=
  let '(version, setupDir, arch) := key in
  (* install LLVM *)
  installationInfo ← setupLLVMOnly version setupDir arch LLVMPackages_All;
  addLLVMLoggingMatcher;;
  (* install LLVM dependencies *)
  setupLLVMDeps arch;;
  mret installationInfo.

Definition setupLLVMWithoutActivation (version setupDir arch : string)
  : eff state Install.Info :=
  Memo.memoize maxSize setupCache setSetupCache
               setupLLVMWithoutActivation_raw (version, setupDir, arch).

(** Setup clang-format. *)
Definition setupClangFormat (version setupDir arch : string)
  : eff state Install.Info :=
  setupLLVMOnly version setupDir arch LLVMPackages_ClangFormat.

(** Setup llvm tools (clang tidy, etc.) without activating llvm and using
    it as the compiler. *)
Definition setupClangTools (version setupDir arch : string)
  : eff state Install.Info :=
  setupLLVMOnly version setupDir arch LLVMPackages_All.

End Setup.

End Llvm.

(** ** Activation of an LLVM installation (llvm, macos-sdk) *)

Module Activation.

(** The environment: the variables of the process, what was persisted for
    later shells, and the alternatives registered with the system. *)
Record state := {
  env : gmap string string;
  persisted : list (string * string);
  alternatives : list (string * string * option Z)
}.

(** Modelled from the spec: [addEnv] of the os-env package is not among
    the sources.  The spec gives [setEnvironmentVariable(name, value)] with
    process-local and persisted-shell-profile effects: the variable is set
    in the environment of the process and recorded for later shells. *)
Definition addEnv (name val : string) : eff state unit :=
  modify (λ s, {| env := <[name := val]> (env s);
                  persisted := persisted s ++ [(name, val)];
                  alternatives := alternatives s |}).

(** Modelled from the spec: [updateAptAlternatives] is not among the
    sources.  The spec has the installed compiler registered as the
    preferred system alternative at a fixed priority: the registration is
    recorded, [None] being the priority that the callee chooses. *)
Definition updateAptAlternatives (name path : string) (priority : option Z)
  : eff state unit :=
  modify (λ s, {| env := env s;
                  persisted := persisted s;
                  alternatives := alternatives s ++ [(name, path, priority)] |}).

Definition isBlank (c : ascii) : bool :=
  let n := nat_of_ascii c in ((9 <=? n)%nat && (n <=? 13)%nat) || (n =? 32)%nat.

Fixpoint dropBlanks (l : list ascii) : list ascii :=
  match l with
  | c :: l' => if isBlank c then dropBlanks l' else l
  | [] => []
  end.

(** [s] between double quotes. *)
Definition quoted (s : string) : string :=
  let dq := ascii_of_nat 34 in String dq (s +:+ String dq "").

(** [s.trim()] *)
Definition trim (s : string) : string :=
  string_of_list_ascii
    (rev (dropBlanks (rev (dropBlanks (list_ascii_of_string s))))).

Section Activate.

Variable platform : string.
Variable isUbuntu : bool.

(** The output of [xcrun --sdk macosx --show-sdk-path], as [stdout] and
    [stderr], in the environment it is run in. *)
Variable xcrun : gmap string string → result (string * string).

(** [path.delimiter] *)
Definition delimiter : string :=
  if String.eqb platform "win32" then ";" else ":".

(** [addExeExt] of patha. *)
Definition addExeExt (name : string) : string :=
  if String.eqb platform "win32" then name +:+ ".exe" else name.

(** Errors caught here are logged only. *)
Definition setupMacOSSDK : eff state unit :=
  if String.eqb platform "darwin" then
    out ← gets (λ s, xcrun (env s));
    match out with
    | Ok (stdout, stderr) =>
        let sdkroot := if String.eqb stdout "" then stderr else stdout in
        if String.eqb sdkroot "" then mret tt
        else addEnv "SDKROOT" (trim sdkroot)
    | Throw _ => mret tt
    end
  else mret tt.

(** [process.env[name] ?? ""] *)
Definition getenv (name : string) : eff state string :=
  gets (λ s, default "" (env s !! name)).

Definition activateLLVM (directory : string) : eff state unit :=
  ld ← getenv "LD_LIBRARY_PATH";
  dyld ← getenv "DYLD_LIBRARY_PATH";
  (* the output of this action *)
  addEnv "LLVM_PATH" directory;;
  (* Setup LLVM as the compiler *)
  addEnv "LD_LIBRARY_PATH" (directory +:+ "/lib" +:+ delimiter +:+ ld);;
  addEnv "DYLD_LIBRARY_PATH" (directory +:+ "/lib" +:+ delimiter +:+ dyld);;
  (* compiler flags *)
  addEnv "LDFLAGS" ("-L" +:+ quoted (directory +:+ "/lib"));;
  addEnv "CPPFLAGS" ("-I" +:+ quoted (directory +:+ "/include"));;
  (* compiler paths *)
  addEnv "CC" (addExeExt (directory +:+ "/bin/clang"));;
  addEnv "CXX" (addExeExt (directory +:+ "/bin/clang++"));;
  addEnv "LIBRARY_PATH" (directory +:+ "/lib");;
  (* os sdks *)
  setupMacOSSDK;;
  if isUbuntu then
    let priority := Some 60 in
    updateAptAlternatives "cc" (directory +:+ "/bin/clang") priority;;
    updateAptAlternatives "cxx" (directory +:+ "/bin/clang++") priority;;
    updateAptAlternatives "clang" (directory +:+ "/bin/clang") None;;
    updateAptAlternatives "clang++" (directory +:+ "/bin/clang++") None;;
    updateAptAlternatives "lld" (directory +:+ "/bin/lld") None;;
    updateAptAlternatives "ld.lld" (directory +:+ "/bin/ld.lld") None;;
    updateAptAlternatives "llvm-ar" (directory +:+ "/bin/llvm-ar") None
  else mret tt.

End Activate.

End Activation.

(** ** The rc file (os-env) *)

Module RcFile.

Definition newline : ascii := ascii_of_nat 10.

(** The new content of an rc file that exists: duplicates removed, keeping
    the latest entry. *)
Definition finalizeContent (content : string) : string :=
  let entries := JS.split newline content in
  let uniqueEntries := reverse (JSSet.of_array (reverse entries)) in
  String.concat (String newline "") uniqueEntries.

(** The file system as a map from paths to contents. *)
Definition finalizeRC (rcPath : string) (fs : gmap string string)
  : gmap string string :=
  match fs !! rcPath with
  | Some content => <[rcPath := finalizeContent content]> fs
  | None => fs
  end.

End RcFile.

(** ** pip packages (setupPipPack) *)

Module Pip.

Record SetupPipPackOptions := {
  usePipx : option bool;
  user : option bool;
  upgrade : option bool;
  isLibrary : option bool
}.

Section Pip.

Variable W : Type.
Variable platform : string.
(** Logging ([info]) changes the output only. *)
Variable info : string → W → W.
Variable hasPipx : string → W → bool.
Variable pipHasPackage : string → string → W → bool.
(** The pipx home and bin directories, made and added to the PATH. *)
Variable preparePipx : eff W unit.
Variable execaSync : string → list string → eff W unit.
Variable isArch : W → bool.
Variable hasDnf : W → bool.
Variable isUbuntu : W → bool.
Variable setupPacmanPack : string → eff W Install.Info.
Variable setupDnfPack : list string → eff W Install.Info.
Variable setupAptPack : list string → eff W Install.Info.
Variable addPythonBaseExecPrefix : string → eff W (list string).
Variable findBinDir : list string → string → eff W string.
Variable addPath : string → eff W unit.

(** [None] is the result [null]: no system package manager is known. *)
Definition setupPipPackSystem (name : string) : eff W (option Install.Info) :=
  if String.eqb platform "linux" then
    modify (info ("Installing " +:+ name +:+ " via the system package manager"));;
    arch ← gets isArch;
    if arch : bool then
      i ← setupPacmanPack ("python-" +:+ name); mret (Some i)
    else
      dnf ← gets hasDnf;
      if dnf : bool then
        i ← setupDnfPack ["python3-" +:+ name]; mret (Some i)
      else
        ubuntu ← gets isUbuntu;
        if ubuntu : bool then
          i ← setupAptPack ["python3-" +:+ name]; mret (Some i)
        else mret None
  else mret None.

(** The body of the [try] block of [setupPipPackWithPython]. *)
Definition pipInstall
    (givenPython name : string) (version : option string)
    (isPipx user upgrade : bool) : eff W unit :=
  let pip := if isPipx then "pipx" else "pip" in
  modify (info ("Installing " +:+ name +:+ " " +:+ default "" version
                +:+ " via " +:+ pip));;
  let nameAndVersion :=
    match version with
    | Some v => if String.eqb v "" then name else name +:+ "==" +:+ v
    | None => name
    end in
  let upgradeFlag :=
    if upgrade then (if isPipx then ["upgrade"] else ["install"; "--upgrade"])
    else ["install"] in
  let userFlag := if negb isPipx && user then ["--user"] else [] in
  (if isPipx && user then preparePipx else mret tt);;
  execaSync givenPython
            (["-m"; pip] ++ upgradeFlag ++ userFlag ++ [nameAndVersion]).

Definition failedVia (name pip : string) (err : exn) : string :=
  "Failed to install " +:+ name +:+ " via " +:+ pip +:+ ": "
  +:+ exnToString err +:+ ".".

Definition notFound (name pip : string) : string :=
  "Failed to install " +:+ name +:+ " as it was not found via " +:+ pip
  +:+ " or the system package manager".

(** The [if (hasPackage) ... else ...] statement of
    [setupPipPackWithPython]: pip or pipx first, then the system package
    manager. *)
Definition installWithFallback
    (givenPython name : string) (version : option string)
    (options : SetupPipPackOptions) : eff W unit :=
  let usePipx := default true (usePipx options) in
  let user := default true (user options) in
  let upgrade := default false (upgrade options) in
  let isLibrary := default false (isLibrary options) in
  pipx ← gets (hasPipx givenPython);
  let isPipx := usePipx && negb isLibrary && pipx in
  let pip := if isPipx then "pipx" else "pip" in
  hasPackage ← gets (pipHasPackage givenPython name);
  if hasPackage : bool then
    try_catch
      (pipInstall givenPython name version isPipx user upgrade)
      (λ err,
         modify (info (failedVia name pip err));;
         system ← setupPipPackSystem name;
         match system with
         | None => throw (Error (failedVia name pip err))
         | Some _ => mret tt
         end)
  else
    system ← setupPipPackSystem name;
    match system with
    | None => throw (Error (notFound name pip))
    | Some _ => mret tt
    end.

Definition setupPipPackWithPython
    (givenPython name : string) (version : option string)
    (options : SetupPipPackOptions) : eff W Install.Info :=
  installWithFallback givenPython name version options;;
  execPaths ← addPythonBaseExecPrefix givenPython;
  binDir ← findBinDir execPaths name;
  addPath binDir;;
  mret {| Install.installDir := None; Install.binDir := binDir;
          Install.bin := None |}.

End Pip.

End Pip.

(** ** The directory of an installed pip executable (setupPipPack) *)

Module PipBin.

Section FindBinDir.

(** The file system and the PATH at the time of the call, and the path
    functions of patha. *)
Variable pathExists : string → bool.
Variable whichSync : string → option string.
Variable join : string → string → string.
Variable addExeExt : string → string.
Variable dirname : string → string.

(** [None] is the result [undefined], which [dirs[dirs.length - 1]] is for
    an empty array. *)
Definition findBinDir (dirs : list string) (name : string) : option string :=
  let exist := (λ dir, pathExists (join dir (addExeExt name))) <$> dirs in
  match list_find (λ found, found = true) exist with
  | Some (dirIndex, _) => dirs !! dirIndex
  | None =>
      match whichSync (addExeExt name) with
      | Some whichDir => Some (dirname whichDir)
      | None => last dirs
      end
  end.

End FindBinDir.

End PipBin.

(** ** Sourcing the rc file from the shell profiles (os-env) *)

Module RcSource.

(** The files by path, and the lines that [info] printed. *)
Record state := {
  files : gmap string string;
  log : list string
}.

Definition nl : string := String (ascii_of_nat 10) "".

(** [appendFile(path, data)] *)
Definition appendFile (path data : string) (s : state) : state :=
  {| files := <[path := default "" (files s !! path) +:+ data]> (files s);
     log := log s |}.

Definition info (message : string) (s : state) : state :=
  {| files := files s; log := log s ++ [message] |}.

(** A variable that prevents source_cpprc from being called from .bashrc
    and .profile. *)
Definition rcHeader : string :=
  "# Automatically Generated by os-env" +:+ nl +:+ "export SOURCE_CPPRC=0".

Definition addRCHeader (rcPath : string) (s : state) : state :=
  match files s !! rcPath with
  | Some rcContent =>
      if negb (JS.includes rcContent rcHeader) then
        info ("Added " +:+ rcHeader +:+ " to " +:+ rcPath)
             (appendFile rcPath (nl +:+ rcHeader +:+ nl) s)
      else s
  | None => s
  end.

(** The string that [sourceRC_raw] builds for [rcPath]. *)
Definition sourceRcString (rcPath : string) : string :=
  nl +:+ "# source .cpprc if SOURCE_CPPRC is not set to 0" +:+ nl
  +:+ "if [[ " +:+ Activation.quoted "$SOURCE_CPPRC" +:+ " != 0 && -f "
  +:+ Activation.quoted rcPath +:+ " ]]; then source "
  +:+ Activation.quoted rcPath +:+ "; fi" +:+ nl.

Section Profiles.

(** [untildifyUser("~/.bashrc")] and [untildifyUser("~/.profile")]. *)
Variable bashrcPath : string.
Variable profilePath : string.

Definition sourceRCInBashrc (sourceRcString : string) (s : state) : state :=
  match files s !! bashrcPath with
  | Some bashrcContent =>
      if negb (JS.includes bashrcContent sourceRcString) then
        info (sourceRcString +:+ " was added to " +:+ bashrcPath)
             (appendFile bashrcPath sourceRcString s)
      else s
  | None => s
  end.

Definition sourceRcInProfile (sourceRcString : string) (s : state) : state :=
  match files s !! profilePath with
  | Some profileContent =>
      if negb (JS.includes profileContent sourceRcString) then
        info (sourceRcString +:+ " was added to " +:+ profilePath)
             (appendFile profilePath sourceRcString s)
      else s
  | None => s
  end.

End Profiles.

End RcSource.

(** * Properties *)

(** ** Strings and sets *)

Lemma JSSet_has_elem_of (s : JSSet.t) (x : string) :
  JSSet.has s x = true ↔ x ∈ s.
Proof.
  unfold JSSet.has. rewrite existsb_exists. split.
  - intros (y & Hy & Heq). apply String.eqb_eq in Heq. subst.
    by apply list_elem_of_In.
  - intros Hx. exists x. split; [by apply list_elem_of_In|apply String.eqb_refl].
Qed.

Lemma JSSet_has_false (s : JSSet.t) (x : string) :
  JSSet.has s x = false ↔ x ∉ s.
Proof.
  rewrite <-JSSet_has_elem_of. destruct (JSSet.has s x); naive_solver.
Qed.

Lemma ascii_compare_N (a b : ascii) :
  Ascii.compare a b = (N_of_ascii a ?= N_of_ascii b)%N.
Proof. reflexivity. Qed.

Lemma ascii_compare_Eq (a b : ascii) : Ascii.compare a b = Eq → a = b.
Proof.
  rewrite ascii_compare_N. intros H%N.compare_eq.
  by rewrite <-(ascii_N_embedding a), <-(ascii_N_embedding b), H.
Qed.

Lemma string_compare_trans_le (a b c : string) :
  String.compare a b ≠ Gt → String.compare b c ≠ Gt → String.compare a c ≠ Gt.
Proof.
  revert b c. induction a as [|x a IH]; intros [|y b] [|z c]; simpl; try done.
  rewrite !ascii_compare_N.
  destruct (N.compare_spec (N_of_ascii x) (N_of_ascii y)) as [Hxy|Hxy|Hxy];
    try done;
    destruct (N.compare_spec (N_of_ascii y) (N_of_ascii z)) as [Hyz|Hyz|Hyz];
    try done; intros H1 H2.
  - rewrite Hxy, Hyz, N.compare_refl. eauto.
  - rewrite Hxy. by apply N.compare_lt_iff in Hyz as ->.
  - rewrite <-Hyz. by apply N.compare_lt_iff in Hxy as ->.
  - assert (N_of_ascii x < N_of_ascii z)%N as Hxz by lia.
    by apply N.compare_lt_iff in Hxz as ->.
Qed.

#[global] Instance lexle_total : Total JS.lexle.
Proof. intros a b. apply String.leb_total. Qed.

#[global] Instance lexle_trans : Transitive JS.lexle.
Proof.
  intros a b c. unfold JS.lexle, String.leb. intros H1 H2.
  pose proof (string_compare_trans_le a b c) as H.
  destruct (String.compare a b), (String.compare b c), (String.compare a c);
    try done; exfalso; by apply H.
Qed.

#[global] Instance lexle_antisym : AntiSymm (=) JS.lexle.
Proof. intros a b H1 H2. by apply String.leb_antisym. Qed.

Lemma sort_elem_of (l : list string) (x : string) : x ∈ JS.sort l ↔ x ∈ l.
Proof. unfold JS.sort. by rewrite merge_sort_Permutation. Qed.

Lemma sort_NoDup (l : list string) : NoDup l → NoDup (JS.sort l).
Proof. unfold JS.sort. by rewrite merge_sort_Permutation. Qed.

Lemma sort_StronglySorted (l : list string) : StronglySorted JS.lexle (JS.sort l).
Proof. apply StronglySorted_merge_sort; apply _. Qed.

Lemma StronglySorted_reverse {A} (R : relation A) (l : list A) :
  StronglySorted R l → StronglySorted (flip R) (reverse l).
Proof.
  induction 1 as [|x l Hl IH Hx]; [constructor|].
  rewrite reverse_cons. apply StronglySorted_app. split_and!.
  - intros a b Ha Hb. apply list_elem_of_singleton in Hb as ->.
    rewrite elem_of_reverse in Ha. rewrite Forall_forall in Hx. by apply Hx.
  - done.
  - repeat constructor.
Qed.

(** ** The artifact locator *)

#[global] Instance exn_eq_dec : EqDecision exn.
Proof. solve_decision. Defined.
#[global] Instance result_eq_dec {A} `{EqDecision A} : EqDecision (result A).
Proof. solve_decision. Defined.

Module LlvmUrlProps.
Import LlvmUrl.

(** [a] comes strictly after [b] in the order of code units. *)
Definition lexdesc (a b : string) : Prop := JS.lexle b a ∧ a ≠ b.

(** [a] is a strictly more recent release than [b]. *)
Definition newer (a b : string) : Prop :=
  Semver.lte b a = Ok true ∧ Semver.lte a b = Ok false.

#[global] Instance newer_dec : RelDecision newer.
Proof. intros a b. unfold newer. apply _. Defined.

Lemma getVersions_SPECIFIC : getVersions SPECIFIC = Some VERSIONS.
Proof. by vm_compute. Qed.

Lemma VERSIONS_NoDup : NoDup VERSIONS.
Proof. apply (bool_decide_unpack _). by vm_compute. Qed.

Lemma VERSIONS_specific :
  filter (λ v, JS.testSpecific v = true) VERSIONS = SPECIFIC.
Proof. by vm_compute. Qed.

Lemma getSpecificVersions_elem_of (version s : string) :
  s ∈ getSpecificVersions version ↔
  s ∈ VERSIONS ∧ JS.testSpecific s = true ∧ JS.startsWith s version = true.
Proof.
  unfold getSpecificVersions.
  rewrite elem_of_reverse, sort_elem_of, list_elem_of_filter.
  rewrite andb_true_iff. tauto.
Qed.

Lemma getSpecificVersions_SPECIFIC (version s : string) :
  s ∈ getSpecificVersions version → s ∈ SPECIFIC.
Proof.
  rewrite getSpecificVersions_elem_of, <-VERSIONS_specific, list_elem_of_filter.
  tauto.
Qed.

Lemma getSpecificVersions_NoDup (version : string) :
  NoDup (getSpecificVersions version).
Proof.
  unfold getSpecificVersions. rewrite reverse_Permutation.
  apply sort_NoDup, NoDup_filter, VERSIONS_NoDup.
Qed.

Lemma getSpecificVersions_lexdesc (version : string) :
  StronglySorted lexdesc (getSpecificVersions version).
Proof.
  pose proof (getSpecificVersions_NoDup version) as Hnd.
  assert (StronglySorted (flip JS.lexle) (getSpecificVersions version)) as Hs.
  { unfold getSpecificVersions. apply StronglySorted_reverse, sort_StronglySorted. }
  induction Hs as [|x l Hl IH Hx]; [constructor|].
  apply NoDup_cons in Hnd as [Hxl Hnd]. constructor; [by apply IH|].
  rewrite Forall_forall in Hx |- *. intros y Hy. split; [by apply Hx|].
  intros ->. done.
Qed.

Lemma getSpecificVersions_newer (version : string) :
  version ∈ VERSIONS → StronglySorted newer (getSpecificVersions version).
Proof.
  assert (Forall (λ v, StronglySorted newer (getSpecificVersions v)) VERSIONS)
    as H by (apply (bool_decide_unpack _); by vm_compute).
  rewrite Forall_forall in H. apply H.
Qed.

Lemma is_Ok_true {A} (r : result A) : is_Ok r = true → ∃ a, r = Ok a.
Proof. destruct r; [eauto|done]. Qed.

Lemma SPECIFIC_valid (s : string) :
  s ∈ SPECIFIC →
  is_Ok (Semver.lte s "9.0.1") = true ∧ is_Ok (Semver.lte s "3.7.0") = true
  ∧ is_Ok (getLinuxUrl s) = true ∧ is_Ok (getDarwinUrl s) = true.
Proof.
  revert s. apply Forall_forall. apply (bool_decide_unpack _). by vm_compute.
Qed.

Section Locator.

Variable isValidUrl : string → bool.

(** A candidate the loop passes over: it has no URL, or the probe
    rejects the one it has. *)
Definition unconfirmed (platform s : string) : Prop :=
  ∀ u, getUrl isValidUrl platform s = Ok (Some u) → isValidUrl u = false.

Lemma getUrl_SPECIFIC (platform s : string) :
  s ∈ SPECIFIC → ∃ o, getUrl isValidUrl platform s = Ok o.
Proof.
  intros (H9 & H3 & Hl & Hd)%SPECIFIC_valid. unfold LlvmUrl.getUrl.
  apply is_Ok_true in H9 as [b9 H9]. apply is_Ok_true in H3 as [b3 H3].
  apply is_Ok_true in Hl as [ul Hl]. apply is_Ok_true in Hd as [ud Hd].
  destruct (String.eqb platform "darwin"); [eauto|].
  destruct (String.eqb platform "linux"); [rewrite Hl; simpl; eauto|].
  destruct (String.eqb platform "win32"); [|eauto].
  unfold getWin32Url. destruct (JSSet.has WIN32_MISSING s); [eauto|].
  rewrite H3; simpl. rewrite H9; simpl.
  destruct (_ || _); eauto.
Qed.

Lemma firstValid_Some (platform : string) (candidates : list string) s u :
  firstValid isValidUrl platform candidates = Ok (Some (s, u)) →
  ∃ before after,
    candidates = before ++ s :: after
    ∧ getUrl isValidUrl platform s = Ok (Some u) ∧ isValidUrl u = true
    ∧ ∀ s', s' ∈ before → unconfirmed platform s'.
Proof.
  induction candidates as [|c rest IH]; simpl; [done|].
  destruct (getUrl isValidUrl platform c) as [[uc|]|e] eqn:Hc; simpl; [| |done].
  - destruct (isValidUrl uc) eqn:Hv.
    + intros [= -> ->]. exists [], rest. split_and!; try done.
      intros s' Hs'. by apply elem_of_nil in Hs'.
    + intros (before & after & -> & Hu & Hvu & Hb)%IH.
      exists (c :: before), after. split_and!; try done.
      intros s' [->|Hs']%elem_of_cons; [|by apply Hb].
      intros u'. rewrite Hc. by intros [= <-].
  - intros (before & after & -> & Hu & Hvu & Hb)%IH.
    exists (c :: before), after. split_and!; try done.
    intros s' [->|Hs']%elem_of_cons; [|by apply Hb].
    intros u'. by rewrite Hc.
Qed.

Lemma firstValid_first (platform : string) before s after u :
  (∀ s', s' ∈ before → ∃ o, getUrl isValidUrl platform s' = Ok o) →
  (∀ s', s' ∈ before → unconfirmed platform s') →
  getUrl isValidUrl platform s = Ok (Some u) → isValidUrl u = true →
  firstValid isValidUrl platform (before ++ s :: after) = Ok (Some (s, u)).
Proof.
  intros Hok Hb Hu Hv. induction before as [|c before IH]; simpl.
  - by rewrite Hu; simpl; rewrite Hv.
  - assert (∃ o, getUrl isValidUrl platform c = Ok o) as [[uc|] Hc]
      by (apply Hok; left); rewrite Hc; simpl.
    + rewrite (Hb c); [|left|done].
      apply IH; intros s' Hs'; [apply Hok|apply Hb]; by right.
    + apply IH; intros s' Hs'; [apply Hok|apply Hb]; by right.
Qed.

Lemma firstValid_None (platform : string) (candidates : list string) :
  firstValid isValidUrl platform candidates = Ok None →
  ∀ s, s ∈ candidates → unconfirmed platform s.
Proof.
  induction candidates as [|c rest IH]; simpl.
  { intros _ s Hs. by apply elem_of_nil in Hs. }
  destruct (getUrl isValidUrl platform c) as [[uc|]|e] eqn:Hc; simpl; [| |done].
  - destruct (isValidUrl uc) eqn:Hv; [done|].
    intros H s [->|Hs]%elem_of_cons; [|by apply IH].
    intros u. rewrite Hc. by intros [= <-].
  - intros H s [->|Hs]%elem_of_cons; [|by apply IH].
    intros u. by rewrite Hc.
Qed.

Lemma firstValid_no_throw (platform : string) (candidates : list string) :
  (∀ s, s ∈ candidates → ∃ o, getUrl isValidUrl platform s = Ok o) →
  ∃ found, firstValid isValidUrl platform candidates = Ok found.
Proof.
  induction candidates as [|c rest IH]; simpl; [eauto|]. intros Hok.
  assert (∃ o, getUrl isValidUrl platform c = Ok o) as [[uc|] Hc]
    by (apply Hok; left); rewrite Hc; simpl.
  - destruct (isValidUrl uc); [eauto|]. apply IH. intros s Hs. apply Hok. by right.
  - apply IH. intros s Hs. apply Hok. by right.
Qed.

Lemma candidates_getUrl_Ok (platform version s : string) :
  s ∈ getSpecificVersions version → ∃ o, getUrl isValidUrl platform s = Ok o.
Proof. intros Hs%getSpecificVersions_SPECIFIC. by apply getUrl_SPECIFIC. Qed.

(** C1: for every supported version prefix, the candidates are exactly
    the specific versions of the registry that start with the prefix,
    without repetition, in descending order of code units, which is
    also most recent release first; the locator returns a pair [(s, u)]
    exactly when [s] is the first candidate whose URL [u] the probe
    confirms.  Requesting "9" enumerates 9.0.1 then 9.0.0, and on darwin
    the first of the two with a confirmed URL is returned. *)
Theorem locator_returns_first_confirmed_candidate (platform version : string) :
  version ∈ VERSIONS →
  let candidates := getSpecificVersions version in
  (∀ s, s ∈ candidates ↔
        s ∈ VERSIONS ∧ JS.testSpecific s = true ∧ JS.startsWith s version = true)
  ∧ NoDup candidates
  ∧ StronglySorted lexdesc candidates
  ∧ StronglySorted newer candidates
  ∧ (∀ s u,
       getSpecificVersionAndUrl isValidUrl platform version = Ok (s, u) ↔
       ∃ before after,
         candidates = before ++ s :: after
         ∧ getUrl isValidUrl platform s = Ok (Some u) ∧ isValidUrl u = true
         ∧ ∀ s', s' ∈ before → unconfirmed platform s')
  ∧ getSpecificVersions "9" = ["9.0.1"; "9.0.0"]
  ∧ getSpecificVersionAndUrl isValidUrl "darwin" "9" =
      let u901 := "https://releases.llvm.org/9.0.1/clang+llvm-9.0.1-x86_64-apple-darwin.tar.xz" in
      let u900 := "https://releases.llvm.org/9.0.0/clang+llvm-9.0.0-x86_64-darwin-apple.tar.xz" in
      if isValidUrl u901 then Ok ("9.0.1", u901)
      else if isValidUrl u900 then Ok ("9.0.0", u900)
      else Throw (unsupportedTarget "darwin" "9").
Proof.
  intros Hv candidates. split_and!.
  - apply getSpecificVersions_elem_of.
  - apply getSpecificVersions_NoDup.
  - apply getSpecificVersions_lexdesc.
  - by apply getSpecificVersions_newer.
  - intros s u. unfold LlvmUrl.getSpecificVersionAndUrl.
    apply JSSet_has_elem_of in Hv as ->. simpl. fold candidates. split.
    + destruct (firstValid isValidUrl platform candidates) as [[[s0 u0]|]|e] eqn:Hf;
        simpl; [|done..].
      intros [= -> ->]. by apply firstValid_Some.
    + intros (before & after & Hc & Hu & Hvu & Hb). rewrite Hc.
      rewrite (firstValid_first platform before s after u); try done.
      intros s' Hs'. apply (candidates_getUrl_Ok platform version).
      fold candidates. rewrite Hc. apply elem_of_app. by left.
  - by vm_compute.
  - vm_compute. destruct (isValidUrl _); [reflexivity|].
    destruct (isValidUrl _); reflexivity.
Qed.

Lemma missing_getUrl (platform v : string) :
  (platform = "darwin" ∧ v ∈ DARWIN_MISSING)
    ∨ (platform = "win32" ∧ v ∈ WIN32_MISSING) →
  getUrl isValidUrl platform v = Ok None.
Proof.
  intros [[-> Hv]|[-> Hv]]; apply JSSet_has_elem_of in Hv;
    unfold LlvmUrl.getUrl; simpl.
  - unfold getDarwinUrl. by rewrite Hv.
  - unfold getWin32Url. by rewrite Hv.
Qed.

(** C2: a version of the Darwin or of the Windows missing set has no
    URL on that platform, the candidate loop passes over it, and the
    locator never returns it there, whatever was requested and whatever
    the probe answers; requested exactly, it is an unsupported target. *)
Theorem missing_versions_never_returned (platform v : string) :
  (platform = "darwin" ∧ v ∈ DARWIN_MISSING)
    ∨ (platform = "win32" ∧ v ∈ WIN32_MISSING) →
  getUrl isValidUrl platform v = Ok None
  ∧ (platform = "darwin" → getDarwinUrl v = Ok None)
  ∧ (platform = "win32" → getWin32Url isValidUrl v = Ok None)
  ∧ (∀ rest, firstValid isValidUrl platform (v :: rest)
             = firstValid isValidUrl platform rest)
  ∧ (∀ version u,
       getSpecificVersionAndUrl isValidUrl platform version ≠ Ok (v, u))
  ∧ getSpecificVersionAndUrl isValidUrl platform v
      = Throw (unsupportedTarget platform v).
Proof.
  intros Hm. pose proof (missing_getUrl platform v Hm) as Hu. split_and!.
  - done.
  - intros ->. by rewrite <-Hu.
  - intros ->. by rewrite <-Hu.
  - intros rest. simpl. by rewrite Hu.
  - intros version u. unfold LlvmUrl.getSpecificVersionAndUrl.
    destruct (negb _); [done|].
    destruct (firstValid _ _ _) as [[[s0 u0]|]|e] eqn:Hf; simpl; [|done..].
    intros [= -> ->]. apply firstValid_Some in Hf as (?&?&?&Hu'&?&?).
    by rewrite Hu in Hu'.
  - assert (JSSet.has VERSIONS v = true ∧ getSpecificVersions v = [v])
      as [Hv Hc].
    { clear Hu. destruct Hm as [[_ Hv]|[_ Hv]]; revert v Hv;
        apply Forall_forall; apply (bool_decide_unpack _); by vm_compute. }
    unfold LlvmUrl.getSpecificVersionAndUrl. rewrite Hv, Hc. simpl.
    by rewrite Hu.
Qed.

(** C7: the locator throws the error "Unsupported target!" naming the
    platform and the requested version exactly when the requested
    version is not in the known-version set or no enumerated candidate
    has a URL that the probe confirms; in every other case it returns a
    version and a URL, and it throws nothing else. *)
Theorem unsupported_target_iff_no_artifact (platform version : string) :
  let r := getSpecificVersionAndUrl isValidUrl platform version in
  let noArtifact :=
    version ∉ VERSIONS
    ∨ ∀ s, s ∈ getSpecificVersions version → unconfirmed platform s in
  (r = Throw (unsupportedTarget platform version) ↔ noArtifact)
  ∧ ((∃ s u, r = Ok (s, u)) ↔ ¬ noArtifact)
  ∧ (∀ e, r = Throw e ↔ e = unsupportedTarget platform version ∧ noArtifact)
  ∧ unsupportedTarget platform version
      = Error ("Unsupported target! (platform='" +:+ platform
               +:+ "', version='" +:+ version +:+ "')").
Proof.
  intros r noArtifact.
  assert ((r = Throw (unsupportedTarget platform version) ∧ noArtifact)
          ∨ ((∃ s u, r = Ok (s, u)) ∧ ¬ noArtifact)) as Hcases.
  { subst r noArtifact. unfold LlvmUrl.getSpecificVersionAndUrl.
    destruct (JSSet.has VERSIONS version) eqn:Hhas; simpl.
    2:{ left. split; [done|]. left. by apply JSSet_has_false. }
    apply JSSet_has_elem_of in Hhas.
    destruct (firstValid_no_throw platform (getSpecificVersions version))
      as [[[s u]|] Hf].
    { intros s. apply candidates_getUrl_Ok. }
    - right. rewrite Hf; simpl. split; [eauto|].
      apply firstValid_Some in Hf as (before & after & Hc & Hu & Hv & _).
      intros [Hn|Hn]; [done|].
      assert (isValidUrl u = false) as Hv'; [|congruence].
      apply (Hn s); [|done]. rewrite Hc. apply elem_of_app. right. left.
    - left. rewrite Hf; simpl. split; [done|]. right.
      by apply firstValid_None. }
  split_and!.
  - destruct Hcases as [[-> Hn]|[(s & u & ->) Hn]]; by split.
  - destruct Hcases as [[-> Hn]|[(s & u & ->) Hn]]; split.
    + by intros (s & u & [=]).
    + intros Hno. by destruct Hno.
    + done.
    + eauto.
  - intros e. destruct Hcases as [[-> Hn]|[(s & u & ->) Hn]]; split.
    + by intros [= <-].
    + by intros [-> _].
    + done.
    + intros [_ Hno]. by destruct Hn.
  - done.
Qed.

(** *** Windows *)

(** [MAJOR.MINOR.PATCH] of [v] is at most [a.b.c]. *)
Definition atMost (v : Semver.version) (a b c : N) : bool :=
  ((Semver.major v <? a)
   || ((Semver.major v =? a)
       && ((Semver.minor v <? b)
           || ((Semver.minor v =? b) && (Semver.patch v <=? c)))))%N.

Lemma lte_release (version : string) (v : Semver.version) (a b c : N) :
  Semver.parse version = Some v →
  ∀ bound, Semver.parse bound
           = Some {| Semver.major := a; Semver.minor := b;
                     Semver.patch := c; Semver.prerelease := [] |} →
  Semver.lte version bound = Ok (atMost v a b c).
Proof.
  intros Hv bound Hb. unfold Semver.lte. rewrite Hv, Hb. f_equal.
  unfold Semver.compare, Semver.compareMain, atMost; simpl.
  destruct (N.compare_spec (Semver.major v) a) as [Ha|Ha|Ha].
  - apply N.eqb_eq in Ha as Ha'. rewrite Ha'.
    assert ((Semver.major v <? a)%N = false) as -> by (apply N.ltb_ge; lia).
    simpl.
    destruct (N.compare_spec (Semver.minor v) b) as [Hm|Hm|Hm].
    + apply N.eqb_eq in Hm as Hm'. rewrite Hm'.
      assert ((Semver.minor v <? b)%N = false) as -> by (apply N.ltb_ge; lia).
      simpl.
      destruct (N.compare_spec (Semver.patch v) c) as [Hp|Hp|Hp].
      * assert ((Semver.patch v <=? c)%N = true) as -> by (apply N.leb_le; lia).
        unfold Semver.comparePre. by destruct (Semver.prerelease v).
      * by assert ((Semver.patch v <=? c)%N = true) as -> by (apply N.leb_le; lia).
      * by assert ((Semver.patch v <=? c)%N = false) as -> by (apply N.leb_gt; lia).
    + by assert ((Semver.minor v <? b)%N = true) as -> by (apply N.ltb_lt; lia).
    + assert ((Semver.minor v <? b)%N = false) as -> by (apply N.ltb_ge; lia).
      by assert ((Semver.minor v =? b)%N = false) as -> by (apply N.eqb_neq; lia).
  - by assert ((Semver.major v <? a)%N = true) as -> by (apply N.ltb_lt; lia).
  - assert ((Semver.major v <? a)%N = false) as -> by (apply N.ltb_ge; lia).
    by assert ((Semver.major v =? a)%N = false) as -> by (apply N.eqb_neq; lia).
Qed.

Lemma SPECIFIC_parse (s : string) :
  s ∈ SPECIFIC → ∃ v, Semver.parse s = Some v ∧ Semver.prerelease v = [].
Proof.
  revert s. apply Forall_forall.
  assert (Forall (λ s, match Semver.parse s with
                       | Some v => bool_decide (Semver.prerelease v = [])
                       | None => false
                       end = true) SPECIFIC) as H
    by (apply (bool_decide_unpack _); by vm_compute).
  eapply Forall_impl; [exact H|]. intros s. simpl.
  destruct (Semver.parse s) as [v|]; [|done].
  intros Hv%bool_decide_eq_true. eauto.
Qed.

(** C9: for a candidate that is not in the Windows missing set, the
    file name ends in -win32.exe when the version is at most 3.7.0 and
    in -win64.exe above; when the version is at most 9.0.1 the URL on
    releases.llvm.org is probed and returned if it exists, and the
    GitHub release URL is returned if it does not; above 9.0.1 the
    GitHub release URL is returned without a probe. *)
Theorem win32_url_thresholds_and_fallback (version : string) :
  version ∈ SPECIFIC → version ∉ WIN32_MISSING →
  ∃ v, Semver.parse version = Some v
    ∧ let suffix := if atMost v 3 7 0 then "-win32.exe" else "-win64.exe" in
      let legacy := getReleaseUrl version "LLVM-" suffix in
      let alternate := getGitHubUrl version "LLVM-" suffix in
      getWin32Url isValidUrl version =
        Ok (Some (if atMost v 9 0 1
                  then if isValidUrl legacy then legacy else alternate
                  else alternate)).
Proof.
  intros (v & Hv & _)%SPECIFIC_parse Hm%JSSet_has_false. exists v.
  split; [done|]. unfold getWin32Url. rewrite Hm.
  rewrite (lte_release version v 3 7 0 Hv "3.7.0") by done.
  rewrite (lte_release version v 9 0 1 Hv "9.0.1") by done. simpl.
  destruct (atMost v 9 0 1); simpl; [|done].
  by destruct (isValidUrl _).
Qed.

End Locator.

Lemma locator_returns_first_confirmed_candidate_witness :
  "9" ∈ VERSIONS
  ∧ StronglySorted newer (getSpecificVersions "9")
  ∧ getSpecificVersions "9" = ["9.0.1"; "9.0.0"].
Proof.
  assert ("9" ∈ VERSIONS) as H by (apply (bool_decide_unpack _); by vm_compute).
  split; [exact H|].
  pose proof (locator_returns_first_confirmed_candidate (λ _, true) "darwin" "9" H)
    as (_ & _ & _ & Hnewer & _ & Hnine & _).
  split; [exact Hnewer|exact Hnine].
Defined.

Lemma missing_versions_never_returned_witness :
  "12.0.1" ∈ DARWIN_MISSING
  ∧ getSpecificVersionAndUrl (λ _, true) "darwin" "12.0.1"
      = Throw (unsupportedTarget "darwin" "12.0.1").
Proof.
  assert ("12.0.1" ∈ DARWIN_MISSING) as H
    by (apply (bool_decide_unpack _); by vm_compute).
  split; [exact H|].
  apply (missing_versions_never_returned (λ _, true) "darwin" "12.0.1").
  left. split; [reflexivity|exact H].
Defined.

Lemma win32_url_thresholds_and_fallback_witness :
  "3.7.0" ∈ SPECIFIC ∧ ("3.7.0" ∉ WIN32_MISSING)
  ∧ ∃ v, Semver.parse "3.7.0" = Some v
      ∧ getWin32Url (λ _, false) "3.7.0" =
          Ok (Some (if atMost v 9 0 1
                    then getGitHubUrl "3.7.0" "LLVM-"
                           (if atMost v 3 7 0 then "-win32.exe" else "-win64.exe")
                    else getGitHubUrl "3.7.0" "LLVM-"
                           (if atMost v 3 7 0 then "-win32.exe" else "-win64.exe"))).
Proof.
  assert ("3.7.0" ∈ SPECIFIC) as H1
    by (apply (bool_decide_unpack _); by vm_compute).
  assert ("3.7.0" ∉ WIN32_MISSING) as H2
    by (apply (bool_decide_unpack _); by vm_compute).
  split; [exact H1|]. split; [exact H2|].
  exact (win32_url_thresholds_and_fallback (λ _, false) "3.7.0" H1 H2).
Defined.

(** *** Linux *)

Definition linuxSuffix (version tag : string) : string :=
  if String.eqb version "5.0.0"
  then "-linux-x86_64" +:+ tag +:+ ".tar.xz"
  else "-x86_64-linux-gnu" +:+ tag +:+ ".tar.xz".

(** [url] is the release-archive or the GitHub URL of the build of
    [version] that carries the distribution tag [tag]. *)
Definition builtFor (url version tag : string) : Prop :=
  url = getReleaseUrl version "clang+llvm-" (linuxSuffix version tag)
  ∨ url = getGitHubUrl version "clang+llvm-" (linuxSuffix version tag).

Lemma UBUNTU_RC_lookup (v rc : string) :
  UBUNTU_RC !! v = Some rc ↔ v = "12.0.1" ∧ rc = "12.0.1-rc4".
Proof.
  unfold UBUNTU_RC. simpl. rewrite lookup_insert_Some, lookup_empty.
  split; [intros [[<- <-]|[_ [=]]]; done|intros [-> ->]; by left].
Qed.

Lemma UBUNTU_keys (k tag : string) :
  UBUNTU !! k = Some tag → JS.includes k "ubuntu" = false ∧ k ≠ "".
Proof.
  revert k tag. apply map_Forall_lookup.
  apply (bool_decide_unpack _). by vm_compute.
Qed.

Lemma getLinuxUrl_builtFor (version tag url : string) :
  (le ← Semver.lte version "9.0.1";
   if le : bool
   then Ok (getReleaseUrl version "clang+llvm-" (linuxSuffix version tag))
   else Ok (getGitHubUrl version "clang+llvm-" (linuxSuffix version tag)))
    = Ok url →
  builtFor url version tag.
Proof.
  destruct (Semver.lte version "9.0.1") as [[]|]; simpl; [| |done];
    intros [= <-]; [by left|by right].
Qed.

(** The builder, with the choice of the tag set apart. *)
Lemma getLinuxUrl_unfold (versionGiven version tag : string) :
  default versionGiven (UBUNTU_RC !! versionGiven) = version →
  (if JS.includes version "ubuntu" then version
   else if negb (String.eqb version "")
           && bool_decide (is_Some (UBUNTU !! version))
        then JS.interpolate (UBUNTU !! version)
        else JS.interpolate (UBUNTU !! MAX_UBUNTU)) = tag →
  getLinuxUrl versionGiven =
    (le ← Semver.lte version "9.0.1";
     if le : bool
     then Ok (getReleaseUrl version "clang+llvm-" (linuxSuffix version tag))
     else Ok (getGitHubUrl version "clang+llvm-" (linuxSuffix version tag))).
Proof. intros <- <-. reflexivity. Qed.

Lemma UBUNTU_MAX : UBUNTU !! MAX_UBUNTU = Some "-ubuntu-21.04".
Proof. by vm_compute. Qed.

Lemma getLinuxUrl_table_tag (versionGiven version tag url : string) :
  default versionGiven (UBUNTU_RC !! versionGiven) = version →
  UBUNTU !! version = Some tag →
  getLinuxUrl versionGiven = Ok url → builtFor url version tag.
Proof.
  intros Hversion Htag. destruct (UBUNTU_keys _ _ Htag) as [Hinc Hne].
  apply String.eqb_neq in Hne.
  rewrite (getLinuxUrl_unfold versionGiven version tag Hversion).
  - apply getLinuxUrl_builtFor.
  - rewrite Hinc, Hne, Htag. by rewrite bool_decide_eq_true_2 by eauto.
Qed.

(** C8: whenever the Linux builder yields a URL, with [version] the
    requested version after the release-candidate override: a tag that the
    table has for [version] is the one in the URL; a requested version
    without table entry and without embedded tag gets the tag of the
    latest known version, -ubuntu-21.04; and a requested version of the
    override map is built as its release candidate, so that 12.0.1 gets
    the URL of 12.0.1-rc4.  The builder yields a URL for every specific
    version of the registry. *)
Theorem linux_url_tag_and_rc_override (versionGiven url : string) :
  getLinuxUrl versionGiven = Ok url →
  let version := default versionGiven (UBUNTU_RC !! versionGiven) in
  (∀ tag, UBUNTU !! version = Some tag → builtFor url version tag)
  ∧ (UBUNTU !! versionGiven = None →
     JS.includes versionGiven "ubuntu" = false →
     UBUNTU !! MAX_UBUNTU = Some "-ubuntu-21.04"
     ∧ builtFor url version "-ubuntu-21.04")
  ∧ (∀ rc, UBUNTU_RC !! versionGiven = Some rc →
           version = rc ∧ getLinuxUrl rc = Ok url
           ∧ builtFor url rc (JS.interpolate (UBUNTU !! rc)))
  ∧ getLinuxUrl "12.0.1" =
      Ok "https://github.com/llvm/llvm-project/releases/download/llvmorg-12.0.1-rc4/clang+llvm-12.0.1-rc4-x86_64-linux-gnu-ubuntu-21.04.tar.xz"
  ∧ (∀ s, s ∈ SPECIFIC → ∃ u, getLinuxUrl s = Ok u).
Proof.
  intros Hurl version.
  assert (∀ tag, UBUNTU !! version = Some tag → builtFor url version tag) as H1.
  { intros tag Htag. by eapply getLinuxUrl_table_tag. }
  split_and!.
  - done.
  - intros Hnone Hinc. split; [apply UBUNTU_MAX|].
    destruct (UBUNTU_RC !! versionGiven) as [rc|] eqn:Hrc.
    + apply H1. apply UBUNTU_RC_lookup in Hrc as [-> ->]. by vm_compute.
    + subst version. change (default versionGiven None) with versionGiven.
      revert Hurl.
      rewrite (getLinuxUrl_unfold versionGiven versionGiven "-ubuntu-21.04").
      * apply getLinuxUrl_builtFor.
      * by rewrite Hrc.
      * rewrite Hinc, Hnone, UBUNTU_MAX.
        rewrite bool_decide_eq_false_2 by (by intros [? ?]).
        by rewrite andb_false_r.
  - intros rc Hrc. subst version. rewrite Hrc.
    change (default versionGiven (Some rc)) with rc.
    apply UBUNTU_RC_lookup in Hrc as [-> ->]. split; [done|].
    assert (getLinuxUrl "12.0.1" = getLinuxUrl "12.0.1-rc4") as Heq by by vm_compute.
    rewrite <-Heq. split; [done|].
    eapply getLinuxUrl_table_tag; [|by vm_compute|exact Hurl]. by vm_compute.
  - by vm_compute.
  - intros s (_ & _ & Hl & _)%SPECIFIC_valid. by apply is_Ok_true.
Qed.

Lemma linux_url_tag_and_rc_override_witness :
  getLinuxUrl "4.0.1"
    = Ok "https://releases.llvm.org/4.0.1/clang+llvm-4.0.1-x86_64-linux-gnu-ubuntu-21.04.tar.xz"
  ∧ builtFor
      "https://releases.llvm.org/4.0.1/clang+llvm-4.0.1-x86_64-linux-gnu-ubuntu-21.04.tar.xz"
      "4.0.1" "-ubuntu-21.04".
Proof.
  assert (getLinuxUrl "4.0.1"
          = Ok "https://releases.llvm.org/4.0.1/clang+llvm-4.0.1-x86_64-linux-gnu-ubuntu-21.04.tar.xz")
    as H by (by vm_compute).
  split; [exact H|].
  apply (linux_url_tag_and_rc_override "4.0.1" _ H); by vm_compute.
Defined.

End LlvmUrlProps.

(** ** Version resolution *)

Module VersionsProps.
Import Versions.

#[global] Instance descZ_total : Total descZ.
Proof. intros a b. unfold descZ. lia. Qed.

#[global] Instance descZ_trans : Transitive descZ.
Proof. intros a b c. unfold descZ. lia. Qed.

(** The keys of a table, largest first. *)
Definition keysDesc (table : gmap Z string) : list Z :=
  merge_sort descZ (map_to_list table).*1.

Lemma keysDesc_elem_of (table : gmap Z string) (k : Z) :
  k ∈ keysDesc table ↔ is_Some (table !! k).
Proof.
  unfold keysDesc. rewrite merge_sort_Permutation, list_elem_of_fmap. split.
  - intros ([k' v] & -> & Hkv%elem_of_map_to_list). eauto.
  - intros [v Hv]. exists (k, v). split; [done|]. by apply elem_of_map_to_list.
Qed.

Lemma keysDesc_sorted (table : gmap Z string) :
  StronglySorted descZ (keysDesc table).
Proof. apply StronglySorted_merge_sort; apply _. Qed.

(** On a list sorted largest first, [find] returns the largest element
    that satisfies the test. *)
Lemma find_sorted_largest (f : Z → bool) (l : list Z) (x : Z) :
  StronglySorted descZ l → List.find f l = Some x →
  x ∈ l ∧ f x = true ∧ ∀ y, y ∈ l → f y = true → y ≤ x.
Proof.
  induction 1 as [|a l Hl IH Ha]; simpl; [done|].
  destruct (f a) eqn:Hfa.
  - intros [= ->]. split_and!; [left|done|].
    intros y [->|Hy]%elem_of_cons _; [lia|].
    rewrite Forall_forall in Ha. by apply Ha.
  - intros (Hx & Hfx & Hmax)%IH. split_and!; [by right|done|].
    intros y [->|Hy]%elem_of_cons Hfy; [congruence|]. by apply Hmax.
Qed.

Lemma find_None_all (f : Z → bool) (l : list Z) :
  List.find f l = None → ∀ y, y ∈ l → f y = false.
Proof.
  intros H y Hy. apply (find_none f l H). by apply list_elem_of_In.
Qed.

(** [k] is the largest key of [table] that is at most [maj]. *)
Definition largestKeyLe (table : gmap Z string) (maj k : Z) : Prop :=
  is_Some (table !! k) ∧ k ≤ maj
  ∧ ∀ k', is_Some (table !! k') → k' ≤ maj → k' ≤ k.

Lemma getDefaultLinuxVersion_largest
    (maj : Z) (rest : list Z) (table : gmap Z string) (k : Z) (v : string) :
  largestKeyLe table maj k → table !! k = Some v →
  getDefaultLinuxVersion (maj :: rest) table = v.
Proof.
  intros (Hk & Hle & Hmax) Hv. unfold getDefaultLinuxVersion. simpl.
  fold (keysDesc table).
  destruct (List.find _ (keysDesc table)) as [k'|] eqn:Hfind.
  - apply find_sorted_largest in Hfind as (Hk' & Hle' & Hmax');
      [|apply keysDesc_sorted].
    apply bool_decide_eq_true in Hle'. apply keysDesc_elem_of in Hk'.
    assert (k ≤ k').
    { apply Hmax'; [by apply keysDesc_elem_of|by apply bool_decide_eq_true]. }
    assert (k' ≤ k) by by apply Hmax.
    assert (k' = k) as -> by lia. by rewrite Hv.
  - eapply find_None_all in Hfind; [|by apply keysDesc_elem_of].
    apply bool_decide_eq_false in Hfind. lia.
Qed.

Lemma getDefaultLinuxVersion_none
    (osVersion : list Z) (table : gmap Z string) :
  (∀ maj k, osVersion !! 0%nat = Some maj → is_Some (table !! k) → maj < k) →
  getDefaultLinuxVersion osVersion table = "".
Proof.
  intros Hall. unfold getDefaultLinuxVersion. fold (keysDesc table).
  destruct (List.find _ (keysDesc table)) as [k'|] eqn:Hfind; [|done].
  apply find_some in Hfind as [Hk' Hf].
  apply list_elem_of_In, keysDesc_elem_of in Hk'.
  destruct (osVersion !! 0%nat) as [maj|]; [|done].
  apply bool_decide_eq_true in Hf. specialize (Hall maj k' eq_refl Hk'). lia.
Qed.

(** C3: with the default sentinel or no requested version, on Linux,
    with OS-release info and an OS-release-scoped table for the tool, the
    resolver returns the entry of the largest key that is at most the
    host's OS major version, and the empty string when there is no such
    key; in every other case it returns the platform-independent default
    of a default request if there is one, the empty string for a default
    request without one, and any other requested version unchanged.  With
    the table {20: "10", 22: "11"} the answer is "11" on major 22 and
    "10" on major 21. *)
Theorem getVersion_resolution
    (platform : string)
    (DefaultUbuntuVersion : gmap string (gmap Z string))
    (DefaultVersions : gmap string string)
    (name : string) (version : option string) (osVersion : option (list Z)) :
  let resolved :=
    getVersion platform DefaultUbuntuVersion DefaultVersions
               name version osVersion in
  let linuxTable :=
    isVersionDefault version = true ∧ platform = "linux"
    ∧ is_Some osVersion ∧ is_Some (DefaultUbuntuVersion !! name) in
  (∀ osv table,
     isVersionDefault version = true → platform = "linux" →
     osVersion = Some osv → DefaultUbuntuVersion !! name = Some table →
     (∀ maj k v, osv !! 0%nat = Some maj →
                 largestKeyLe table maj k → table !! k = Some v →
                 resolved = v)
     ∧ ((∀ maj k, osv !! 0%nat = Some maj → is_Some (table !! k) → maj < k) →
        resolved = ""))
  ∧ (¬ linuxTable →
     (∀ d, isVersionDefault version = true → DefaultVersions !! name = Some d →
           resolved = d)
     ∧ (isVersionDefault version = true → DefaultVersions !! name = None →
        resolved = "")
     ∧ (∀ v, version = Some v → v ≠ "true" → resolved = v))
  ∧ (let tables : gmap string (gmap Z string) :=
       {[ "gcc" := {[ 20 := "10"; 22 := "11" ]} ]} in
     getVersion "linux" tables ∅ "gcc" None (Some [22]) = "11"
     ∧ getVersion "linux" tables ∅ "gcc" None (Some [21]) = "10"
     ∧ getVersion "linux" tables ∅ "gcc" (Some "true") (Some [22; 4]) = "11"
     ∧ getVersion "linux" tables ∅ "gcc" (Some "true") (Some [21; 10]) = "10"
     ∧ getVersion "linux" tables ∅ "gcc" None (Some [18; 4]) = "").
Proof.
  intros resolved linuxTable. split_and!.
  - intros osv table Hdef -> -> Htable. subst resolved. unfold getVersion.
    rewrite Hdef, Htable. simpl. split.
    + intros maj k v Hmaj Hk Hv. destruct osv as [|maj' rest]; [done|].
      simpl in Hmaj. injection Hmaj as ->.
      by eapply getDefaultLinuxVersion_largest.
    + apply getDefaultLinuxVersion_none.
  - intros Hnot.
    assert (isVersionDefault version && String.eqb platform "linux"
            && bool_decide (is_Some osVersion)
            && bool_decide (is_Some (DefaultUbuntuVersion !! name)) = false)
      as Hcond.
    { apply not_true_is_false. rewrite !andb_true_iff, !bool_decide_eq_true.
      rewrite String.eqb_eq. intros [[[? ?] ?] ?]. by apply Hnot. }
    subst resolved. unfold getVersion. rewrite Hcond. split_and!.
    + intros d Hdef Hd. by rewrite Hdef, Hd.
    + intros Hdef Hd. rewrite Hdef, Hd. simpl.
      clear Hcond. case_bool_decide; [done|]. destruct version as [v|]; [|done].
      simpl in Hdef. apply String.eqb_eq in Hdef. by subst.
    + intros v -> Hv. simpl. apply String.eqb_neq in Hv as Hv'.
      rewrite Hv'. simpl. rewrite bool_decide_eq_false_2; [done|].
      by intros [= ->].
  - by vm_compute.
Qed.

(** *** Version synchronisation *)

Definition inUse (opts : gmap string string) (tools : list string)
    (t : string) : Prop :=
  t ∈ tools ∧ is_Some (opts !! t).

Definition explicit (opts : gmap string string) (tools : list string)
    (t v : string) : Prop :=
  t ∈ tools ∧ opts !! t = Some v ∧ v ≠ "true".

Lemma isVersionDefault_false (o : option string) :
  isVersionDefault o = false ↔ ∃ v, o = Some v ∧ v ≠ "true".
Proof.
  destruct o as [v|]; simpl.
  - rewrite String.eqb_neq. split; [eauto|by intros (? & [= <-] & ?)].
  - split; [done|by intros (? & [=] & _)].
Qed.

Lemma foldl_assign_lookup
    (target : option string) (l : list string) (opts : gmap string string)
    (t : string) :
  foldl (λ o tool, partial_alter (λ _, target) tool o) opts l !! t
  = if decide (t ∈ l) then target else opts !! t.
Proof.
  revert opts. induction l as [|a l IH]; intros opts.
  - destruct (decide (t ∈ [])) as [H%elem_of_nil|]; done.
  - simpl. rewrite IH.
    destruct (decide (t ∈ l)) as [Hl|Hl], (decide (t ∈ a :: l)) as [Hal|Hal];
      try done.
    + exfalso. apply Hal. by right.
    + apply elem_of_cons in Hal as [->|Hal]; [|done].
      apply lookup_partial_alter_eq.
    + apply lookup_partial_alter_ne. intros ->. apply Hal. left.
Qed.

Lemma filter_head {A} (P : A → Prop) `{∀ x, Decision (P x)}
    (l : list A) (x : A) (rest : list A) :
  filter P l = x :: rest →
  ∃ before after, l = before ++ x :: after ∧ P x ∧ ∀ y, y ∈ before → ¬ P y.
Proof.
  induction l as [|a l IH]; [done|]. rewrite filter_cons.
  destruct (decide (P a)) as [Ha|Ha].
  - intros [= -> _]. exists [], l. split_and!; [done..|].
    intros y Hy. by apply elem_of_nil in Hy.
  - intros (before & after & -> & Hx & Hb)%IH.
    exists (a :: before), after. split_and!; [done..|].
    intros y [->|Hy]%elem_of_cons; [done|by apply Hb].
Qed.

Lemma toolsNonDefault_elem_of
    (opts : gmap string string) (tools : list string) (t : string) :
  t ∈ filter (λ tool, isVersionDefault (opts !! tool) = false)
             (filter (λ tool, is_Some (opts !! tool)) tools)
  ↔ ∃ v, explicit opts tools t v.
Proof.
  rewrite !list_elem_of_filter, isVersionDefault_false. unfold explicit.
  split.
  - intros ((v & Hv & Hne) & _ & Ht). eauto.
  - intros (v & Ht & Hv & Hne). eauto 10.
Qed.

(** C10: the synchronisation returns false exactly when two tools in use
    carry different explicit versions, and then leaves the options as
    they are; when it returns true, every tool in use has the common
    target version afterwards, the options of all other names are
    unchanged, and the target is the explicit version of the first tool
    of the list that has one, or "true" when no tool in use has an
    explicit version. *)
Theorem syncVersions_common_target
    (opts : gmap string string) (tools : list string) :
  let ok := (syncVersions opts tools).1 in
  let opts' := (syncVersions opts tools).2 in
  (ok = false ↔
     ∃ t1 t2 v1 v2,
       explicit opts tools t1 v1 ∧ explicit opts tools t2 v2 ∧ v1 ≠ v2)
  ∧ (ok = false → opts' = opts)
  ∧ (ok = true →
     ∃ target,
       ((target = "true" ∧ ∀ t v, ¬ explicit opts tools t v)
        ∨ (∃ before t after,
             tools = before ++ t :: after
             ∧ explicit opts tools t target
             ∧ ∀ t' v, t' ∈ before → ¬ explicit opts tools t' v))
       ∧ (∀ t, inUse opts tools t → opts' !! t = Some target)
       ∧ (∀ t, ¬ inUse opts tools t → opts' !! t = opts !! t)).
Proof.
  intros ok opts'. subst ok opts'. unfold syncVersions.
  set (toolsInUse := filter (λ tool, is_Some (opts !! tool)) tools).
  set (nonDefault :=
         filter (λ tool, isVersionDefault (opts !! tool) = false) toolsInUse).
  set (targetVersion :=
         match nonDefault with
         | tool :: _ => opts !! tool
         | [] => Some "true"
         end).
  assert (∀ t, t ∈ nonDefault ↔ ∃ v, explicit opts tools t v) as Hnd
    by apply toolsNonDefault_elem_of.
  assert (∀ t, t ∈ toolsInUse ↔ inUse opts tools t) as Hiu.
  { intros t. subst toolsInUse. rewrite list_elem_of_filter. unfold inUse. tauto. }
  destruct (existsb _ nonDefault) eqn:Hex; simpl.
  - (* a tool in use disagrees with the target *)
    split_and!; [|done|done]. split; [intros _|done].
    apply existsb_exists in Hex as (t & Ht%list_elem_of_In & Hne%bool_decide_eq_true).
    destruct nonDefault as [|t0 rest] eqn:Hnon; [by apply elem_of_nil in Ht|].
    assert (t0 ∈ t0 :: rest) as Ht0 by left.
    apply Hnd in Ht as [v Hv]. apply Hnd in Ht0 as [v0 Hv0].
    exists t, t0, v, v0. split_and!; [done..|].
    intros ->. apply Hne. subst targetVersion.
    destruct Hv as (_ & -> & _). by destruct Hv0 as (_ & -> & _).
  - (* all explicit versions agree *)
    assert (∀ t, t ∈ nonDefault → opts !! t = targetVersion) as Hall.
    { intros t Ht%list_elem_of_In. apply dec_stable. intros Hne.
      assert (existsb (λ tool, bool_decide (opts !! tool ≠ targetVersion))
                      nonDefault = true) as Habs; [|congruence].
      apply existsb_exists. exists t. split; [done|].
      by apply bool_decide_eq_true. }
    split_and!.
    + split; [done|]. intros (t1 & t2 & v1 & v2 & H1 & H2 & Hne). exfalso.
      apply Hne.
      assert (opts !! t1 = targetVersion) as E1 by (apply Hall, Hnd; eauto).
      assert (opts !! t2 = targetVersion) as E2 by (apply Hall, Hnd; eauto).
      destruct H1 as (_ & Hv1 & _), H2 as (_ & Hv2 & _). congruence.
    + done.
    + intros _.
      assert (∃ target, targetVersion = Some target
               ∧ ((target = "true" ∧ ∀ t v, ¬ explicit opts tools t v)
                  ∨ (∃ before t after,
                       tools = before ++ t :: after
                       ∧ explicit opts tools t target
                       ∧ ∀ t' v, t' ∈ before → ¬ explicit opts tools t' v)))
        as (target & Htarget & Hfirst).
      { destruct nonDefault as [|t0 rest] eqn:Hnon.
        - exists "true". split; [done|]. left. split; [done|].
          intros t v Hv. eapply elem_of_nil, Hnd. eauto.
        - assert (t0 ∈ t0 :: rest) as Ht0 by left.
          apply Hnd in Ht0 as [v0 Hv0]. exists v0.
          split; [by destruct Hv0 as (_ & ? & _)|]. right.
          subst nonDefault toolsInUse. rewrite list_filter_filter in Hnon.
          apply filter_head in Hnon as (before & after & Htools & _ & Hb).
          exists before, t0, after. split_and!; [done..|].
          intros t' v Ht' (_ & Hv & Hne). apply (Hb t' Ht').
          split; [|by eauto]. apply isVersionDefault_false. eauto. }
      exists target. split_and!; [done|..]; intros t Ht;
        rewrite foldl_assign_lookup.
      * by rewrite decide_True by by apply Hiu.
      * by rewrite decide_False by by rewrite Hiu.
Qed.

End VersionsProps.

(** ** Memoised installation *)

Module MemoProps.

Section Memoize.

Context {K V S : Type} `{EqDecision K}.
Variable getCache : S → list (K * V).
Variable setCache : list (K * V) → S → S.
Variable fn : K → eff S V.

Hypothesis get_set : ∀ c s, getCache (setCache c s) = c.
Hypothesis set_set : ∀ c c' s, setCache c (setCache c' s) = setCache c s.

Lemma lookup_front (k : K) (v : V) (rest : list (K * V)) :
  Memo.lookup k ((k, v) :: rest) = Some v.
Proof. simpl. by rewrite decide_True. Qed.

Lemma remove_front (k : K) (v : V) (rest : list (K * V)) :
  Memo.remove k ((k, v) :: rest) = rest.
Proof. simpl. by rewrite decide_True. Qed.

(** A call whose entry is in front of the cache returns the cached value
    and leaves the state as it is. *)
Lemma memoize_front (maxSize : nat) (k : K) (v : V) (rest : list (K * V)) (s : S) :
  Memo.memoize maxSize getCache setCache fn k (setCache ((k, v) :: rest) s)
  = (Ok v, setCache ((k, v) :: rest) s).
Proof.
  unfold Memo.memoize. rewrite get_set, lookup_front, remove_front.
  by rewrite set_set.
Qed.

Lemma memoize_repeat (maxSize : nat) (k : K) (v : V) (s s' : S) :
  (0 < maxSize)%nat →
  Memo.memoize maxSize getCache setCache fn k s = (Ok v, s') →
  Memo.memoize maxSize getCache setCache fn k s' = (Ok v, s').
Proof.
  intros Hsize. unfold Memo.memoize at 1.
  destruct (Memo.lookup k (getCache s)) as [v0|].
  - intros [= -> <-]. apply memoize_front.
  - destruct (fn k s) as [[v0|e] s1]; [|done].
    intros [= -> <-]. destruct maxSize as [|n]; [lia|]. simpl.
    apply memoize_front.
Qed.

End Memoize.

End MemoProps.

Module BrewProps.
Import Brew.

(** After a call that returned, every later call returns the same result
    and does nothing. *)
Lemma setupBrew_repeat (h : host) (version setupDir arch : string)
    (p p' : process) (r : option Install.Info) :
  setupBrew h version setupDir arch p = (Ok r, p') →
  ∀ version' setupDir' arch', setupBrew h version' setupDir' arch' p' = (Ok r, p').
Proof.
  unfold setupBrew.
  destruct (negb (bool_decide (platform h ∈ ["darwin"; "linux"]))) eqn:Hplat.
  { by intros [= <- <-]. }
  unfold mbind, eff_bind, gets, ask, perform, setBinDir, modify, liftResult,
    mret, eff_ret, try_catch, throw.
  destruct p as [[d|] tr]; simpl.
  { by intros [= <- <-]. }
  destruct (whichBrew h tr) as [path|]; simpl.
  { by intros [= <- <-]. }
  destruct (download h _) as [[]|e]; simpl; [|done].
  destruct (installer h _) as [[]|e]; simpl; [|done].
  destruct (getBrewPath h) as [d|e]; simpl; [|done].
  destruct (addPath h _) as [[]|e]; simpl; [|done].
  by intros [= <- <-].
Qed.

(** Two calls in sequence with the same arguments, in a fresh process. *)
Definition twice (h : host) (version setupDir arch : string) : process :=
  (setupBrew h version setupDir arch
             (setupBrew h version setupDir arch initial).2).2.

(** A Linux host without brew on which the installer script fails. *)
Definition failingHost : host :=
  {| platform := "linux"; arch := "x64";
     whichBrew := λ _, None;
     download := λ _, Ok tt;
     installer := λ _, Throw (Error "Command failed with exit code 1");
     addPath := λ _, Ok tt;
     dirname := λ path, path |}.

(** The claim C4 as it is stated fails: when the installer script fails,
    the next call with the same arguments runs it again. *)
Lemma installer_runs_again_after_failure :
  (setupBrew failingHost "" "" "x64" initial).1
    = Throw (Error "Command failed with exit code 1")
  ∧ installerRuns (twice failingHost "" "" "x64") = 2%nat
  ∧ ¬ (∀ h version setupDir arch,
         (installerRuns (twice h version setupDir arch) ≤ 1)%nat).
Proof.
  split_and!; [by vm_compute..|].
  intros H. specialize (H failingHost "" "" "x64"). vm_compute in H. lia.
Qed.

End BrewProps.

(** ** Installation of LLVM and of pip packages *)

Module SetupProps.

Section Setup.

Variable W : Type.
Variable LLVMPackages : Type.
Variable LLVMPackages_All : LLVMPackages.
Variable platform : string.
Variable GITHUB_ACTIONS : bool.
Variable matcherPath : string.
Variable isUbuntu : W → bool.
Variable pathExists : string → W → bool.
Variable info : string → W → W.
Variable warning : string → W → W.
Variable semverCoerceIfInvalid : string → string.
Variable setupLLVMApt : option Z → LLVMPackages → eff W Install.Info.
Variable setupBin : string → string → string → string → eff W Install.Info.
Variable setupAptPack : list string → eff W unit.
Variable setupGcc : string → string → string → Z → eff W unit.
Variable ubuntuVersion : eff W (option (list Z)).
Variable DefaultUbuntuVersion : gmap string (gmap Z string).
Variable DefaultVersions : gmap string string.
Variable maxSize : nat.

Local Notation "'setupLLVMWithoutActivation'" :=
  (Llvm.setupLLVMWithoutActivation W LLVMPackages LLVMPackages_All platform
     GITHUB_ACTIONS matcherPath isUbuntu pathExists info warning
     semverCoerceIfInvalid setupLLVMApt setupBin setupAptPack setupGcc
     ubuntuVersion DefaultUbuntuVersion DefaultVersions maxSize).

Local Notation "'setupLLVMOnly'" :=
  (Llvm.setupLLVMOnly W LLVMPackages isUbuntu info semverCoerceIfInvalid
     setupLLVMApt setupBin setupAptPack maxSize).

Local Notation "'llvmBinaryDeps'" :=
  (Llvm.llvmBinaryDeps W isUbuntu setupAptPack maxSize).

Lemma setupCache_get_set (c : list (string * string * string * Install.Info))
    (s : Llvm.state W) :
  Llvm.setupCache W (Llvm.setSetupCache W c s) = c.
Proof. done. Qed.

Lemma setupCache_set_set (c c' : list (string * string * string * Install.Info))
    (s : Llvm.state W) :
  Llvm.setSetupCache W c (Llvm.setSetupCache W c' s) = Llvm.setSetupCache W c s.
Proof. done. Qed.

(** C4 (amended): once a call of the installation entry point has returned
    a result, a second call in sequence with the same key returns the
    identical result, the same binDirectory, and leaves the whole state as
    it is, so that the expensive producer is not run again.  This holds for
    [setupBrew], whose key plays no part, and for the memoised
    [setupLLVMWithoutActivation] with a cache of at least one entry.  A
    failed producer is not covered: it is not memoised. *)
Theorem second_call_returns_memoised_result :
  (∀ (h : Brew.host) (version setupDir arch : string)
     (p p' : Brew.process) (r : option Install.Info),
     Brew.setupBrew h version setupDir arch p = (Ok r, p') →
     Brew.setupBrew h version setupDir arch p' = (Ok r, p')
     ∧ Brew.installerRuns
         (Brew.setupBrew h version setupDir arch p').2 = Brew.installerRuns p')
  ∧ (∀ (version setupDir arch : string)
       (s s' : Llvm.state W) (i : Install.Info),
       (0 < maxSize)%nat →
       setupLLVMWithoutActivation version setupDir arch s = (Ok i, s') →
       setupLLVMWithoutActivation version setupDir arch s' = (Ok i, s')).
Proof.
  split.
  - intros h version setupDir arch p p' r Hfirst.
    pose proof (BrewProps.setupBrew_repeat h _ _ _ _ _ _ Hfirst
                  version setupDir arch) as Hsecond.
    by rewrite Hsecond.
  - intros version setupDir arch s s' i Hsize. unfold Llvm.setupLLVMWithoutActivation.
    apply MemoProps.memoize_repeat;
      [apply setupCache_get_set|apply setupCache_set_set|done].
Qed.

(** *** Fallback between installation strategies *)

Variable hasPipx : string → W → bool.
Variable pipHasPackage : string → string → W → bool.
Variable preparePipx : eff W unit.
Variable execaSync : string → list string → eff W unit.
Variable isArch : W → bool.
Variable hasDnf : W → bool.
Variable setupPacmanPack : string → eff W Install.Info.
Variable setupDnfPack : list string → eff W Install.Info.
Variable setupAptPackInfo : list string → eff W Install.Info.
Variable addPythonBaseExecPrefix : string → eff W (list string).
Variable findBinDir : list string → string → eff W string.
Variable addPath : string → eff W unit.

Local Notation "'setupPipPackSystem'" :=
  (Pip.setupPipPackSystem W platform info isArch hasDnf isUbuntu
     setupPacmanPack setupDnfPack setupAptPackInfo).

Local Notation "'pipInstall'" := (Pip.pipInstall W info preparePipx execaSync).

Local Notation "'installWithFallback'" :=
  (Pip.installWithFallback W platform info hasPipx pipHasPackage preparePipx
     execaSync isArch hasDnf isUbuntu setupPacmanPack setupDnfPack
     setupAptPackInfo).

Local Notation "'setupPipPackWithPython'" :=
  (Pip.setupPipPackWithPython W platform info hasPipx pipHasPackage
     preparePipx execaSync isArch hasDnf isUbuntu setupPacmanPack
     setupDnfPack setupAptPackInfo addPythonBaseExecPrefix findBinDir addPath).

(** The major version that [setupLLVMOnly] computes. *)
Definition majorOf (version : string) : option Z :=
  Llvm.parseInt (hd "" (JS.split "."%char (semverCoerceIfInvalid version))).

(** The state after the failure [e] of the package manager was logged. *)
Definition aptFailureLogged (e : exn) (s : Llvm.state W) : Llvm.state W :=
  Llvm.setWorld W
    (info ("Failed to install llvm via system package manager "
           +:+ exnToString e) (Llvm.world W s)) s.

(** Whether pipx is used, and the name of the installer. *)
Definition isPipxFor (options : Pip.SetupPipPackOptions)
    (givenPython : string) (w : W) : bool :=
  default true (Pip.usePipx options)
  && negb (default false (Pip.isLibrary options))
  && hasPipx givenPython w.

Definition pipName (isPipx : bool) : string :=
  if isPipx then "pipx" else "pip".

(** The steps after the installation of a pip package. *)
Definition afterInstall (givenPython name : string) : eff W Install.Info :=
  execPaths ← addPythonBaseExecPrefix givenPython;
  binDir ← findBinDir execPaths name;
  addPath binDir;;
  mret {| Install.installDir := None; Install.binDir := binDir;
          Install.bin := None |}.

(** C6: a failing strategy does not abort the installation.  For LLVM:
    when the system package manager is not available (the host is not
    Ubuntu) or fails, and the archive download with its dependencies
    succeeds, the result is the installation of the archive, the failure
    having been logged only; [setupLLVMOnly] throws only when the package
    manager was unavailable or failed and the archive strategy threw.  For
    pip packages: a package that pip does not find, or that pip or pipx
    fails to install, is installed by the system package manager; the
    installation throws only when the system package manager, tried last,
    is unknown or throws. *)
Theorem strategy_failure_falls_back_to_next :
  (∀ version setupDir arch packages (s s1 s2 : Llvm.state W) i,
     isUbuntu (Llvm.world W s) = false →
     Llvm.lift W (setupBin "llvm" version setupDir arch) s = (Ok i, s1) →
     llvmBinaryDeps (majorOf version) s1 = (Ok tt, s2) →
     setupLLVMOnly version setupDir arch packages s = (Ok i, s2))
  ∧ (∀ version setupDir arch packages (s s0 s1 s2 : Llvm.state W) e i,
       isUbuntu (Llvm.world W s) = true →
       Llvm.lift W (setupLLVMApt (majorOf version) packages) s = (Throw e, s0) →
       Llvm.lift W (setupBin "llvm" version setupDir arch)
                 (aptFailureLogged e s0) = (Ok i, s1) →
       llvmBinaryDeps (majorOf version) s1 = (Ok tt, s2) →
       setupLLVMOnly version setupDir arch packages s = (Ok i, s2))
  ∧ (∀ version setupDir arch packages (s s' : Llvm.state W) e,
       setupLLVMOnly version setupDir arch packages s = (Throw e, s') →
       ∃ s0,
         ((isUbuntu (Llvm.world W s) = false ∧ s0 = s)
          ∨ (∃ e0 s00,
               isUbuntu (Llvm.world W s) = true
               ∧ Llvm.lift W (setupLLVMApt (majorOf version) packages) s
                 = (Throw e0, s00)
               ∧ s0 = aptFailureLogged e0 s00))
         ∧ (Llvm.lift W (setupBin "llvm" version setupDir arch) s0 = (Throw e, s')
            ∨ ∃ i s1,
                Llvm.lift W (setupBin "llvm" version setupDir arch) s0 = (Ok i, s1)
                ∧ llvmBinaryDeps (majorOf version) s1 = (Throw e, s')))
  ∧ (∀ givenPython name version options (w w1 : W) i,
       pipHasPackage givenPython name w = false →
       setupPipPackSystem name w = (Ok (Some i), w1) →
       installWithFallback givenPython name version options w = (Ok tt, w1)
       ∧ setupPipPackWithPython givenPython name version options w
         = afterInstall givenPython name w1)
  ∧ (∀ givenPython name version options (w w0 w1 : W) e i,
       let isPipx := isPipxFor options givenPython w in
       pipHasPackage givenPython name w = true →
       pipInstall givenPython name version isPipx
                  (default true (Pip.user options))
                  (default false (Pip.upgrade options)) w = (Throw e, w0) →
       setupPipPackSystem name
         (info (Pip.failedVia name (pipName isPipx) e) w0) = (Ok (Some i), w1) →
       installWithFallback givenPython name version options w = (Ok tt, w1)
       ∧ setupPipPackWithPython givenPython name version options w
         = afterInstall givenPython name w1)
  ∧ (∀ givenPython name version options (w w' : W) e,
       let isPipx := isPipxFor options givenPython w in
       installWithFallback givenPython name version options w = (Throw e, w') →
       ∃ w0,
         ((pipHasPackage givenPython name w = false ∧ w0 = w)
          ∨ (∃ e0 w00,
               pipHasPackage givenPython name w = true
               ∧ pipInstall givenPython name version isPipx
                   (default true (Pip.user options))
                   (default false (Pip.upgrade options)) w = (Throw e0, w00)
               ∧ w0 = info (Pip.failedVia name (pipName isPipx) e0) w00))
         ∧ (setupPipPackSystem name w0 = (Throw e, w')
            ∨ setupPipPackSystem name w0 = (Ok None, w'))).
Proof.
  split_and!.
  - intros version setupDir arch packages s s1 s2 i Hubuntu Hbin Hdeps.
    unfold Llvm.setupLLVMOnly. fold (majorOf version).
    cbv [try_catch mbind eff_bind gets mret eff_ret].
    by rewrite Hubuntu, Hbin, Hdeps.
  - intros version setupDir arch packages s s0 s1 s2 e i Hubuntu Hapt Hbin Hdeps.
    unfold Llvm.setupLLVMOnly. fold (majorOf version).
    cbv [try_catch mbind eff_bind gets mret eff_ret Llvm.log modify].
    rewrite Hubuntu, Hapt. fold (aptFailureLogged e s0).
    by rewrite Hbin, Hdeps.
  - intros version setupDir arch packages s s' e.
    unfold Llvm.setupLLVMOnly. fold (majorOf version).
    cbv [try_catch mbind eff_bind gets mret eff_ret Llvm.log modify].
    destruct (isUbuntu (Llvm.world W s)) eqn:Hubuntu.
    + destruct (Llvm.lift W (setupLLVMApt _ _) s) as [[i0|e0] s00] eqn:Hapt;
        [done|].
      fold (aptFailureLogged e0 s00). intros Hrest.
      exists (aptFailureLogged e0 s00). split; [right; eauto|]. revert Hrest.
      destruct (Llvm.lift W (setupBin _ _ _ _) _) as [[i|e1] s1]; [|by left].
      intros Hrest. right. exists i, s1. split; [done|]. revert Hrest.
      destruct (llvmBinaryDeps _ s1) as [[[]|e2] s2]; simpl; congruence.
    + intros Hrest. exists s. split; [by left|]. revert Hrest.
      destruct (Llvm.lift W (setupBin _ _ _ _) _) as [[i|e1] s1]; [|by left].
      intros Hrest. right. exists i, s1. split; [done|]. revert Hrest.
      destruct (llvmBinaryDeps _ s1) as [[[]|e2] s2]; simpl; congruence.
  - intros givenPython name version options w w1 i Hhas Hsys.
    assert (installWithFallback givenPython name version options w = (Ok tt, w1))
      as Hinstall.
    { unfold Pip.installWithFallback.
      cbv [try_catch mbind eff_bind gets mret eff_ret].
      by rewrite Hhas, Hsys. }
    split; [done|]. unfold Pip.setupPipPackWithPython.
    unfold mbind at 1. unfold eff_bind at 1. by rewrite Hinstall.
  - intros givenPython name version options w w0 w1 e i isPipx Hhas Hpip Hsys.
    assert (installWithFallback givenPython name version options w = (Ok tt, w1))
      as Hinstall.
    { unfold Pip.installWithFallback.
      cbv [try_catch mbind eff_bind gets mret eff_ret modify].
      fold (isPipxFor options givenPython w). fold isPipx.
      rewrite Hhas, Hpip. fold (pipName isPipx). by rewrite Hsys. }
    split; [done|]. unfold Pip.setupPipPackWithPython.
    unfold mbind at 1. unfold eff_bind at 1. by rewrite Hinstall.
  - intros givenPython name version options w w' e isPipx.
    unfold Pip.installWithFallback.
    cbv [try_catch mbind eff_bind gets mret eff_ret modify throw].
    fold (isPipxFor options givenPython w). fold isPipx.
    destruct (pipHasPackage givenPython name w) eqn:Hhas.
    + destruct (pipInstall _ _ _ _ _ _ w) as [[[]|e0] w00] eqn:Hpip; [done|].
      fold (pipName isPipx). intros Hrest.
      exists (info (Pip.failedVia name (pipName isPipx) e0) w00).
      split; [right; eauto|]. revert Hrest.
      destruct (setupPipPackSystem name _) as [[[i|]|e1] w1];
        simpl; [done|right|left]; congruence.
    + intros Hrest. exists w. split; [by left|]. revert Hrest.
      destruct (setupPipPackSystem name _) as [[[i|]|e1] w1];
        simpl; [done|right|left]; congruence.
Qed.

End Setup.

(** A Linux host with brew in [/usr/bin], and an LLVM set-up whose every
    helper succeeds at once, with a cache of one entry. *)
Definition brewHost : Brew.host :=
  {| Brew.platform := "linux"; Brew.arch := "x64";
     Brew.whichBrew := λ _, Some "/usr/bin";
     Brew.download := λ _, Ok tt; Brew.installer := λ _, Ok tt;
     Brew.addPath := λ _, Ok tt; Brew.dirname := λ path, path |}.

Definition easySetup (version setupDir arch : string)
  : eff (Llvm.state unit) Install.Info :=
  Llvm.setupLLVMWithoutActivation
    unit unit tt "linux" false "" (λ _, false) (λ _ _, false)
    (λ _ w, w) (λ _ w, w) (λ v, v)
    (λ _ _ w, (Ok (Brew.info "/usr/lib/llvm"), w))
    (λ _ _ _ _ w, (Ok (Brew.info "/opt/llvm"), w))
    (λ _ w, (Ok tt, w)) (λ _ _ _ _ w, (Ok tt, w))
    (λ w, (Ok None, w)) ∅ ∅ 1%nat version setupDir arch.

Definition freshState : Llvm.state unit :=
  {| Llvm.world := tt; Llvm.binaryDepsCache := [];
     Llvm.depsCache := []; Llvm.setupCache := [] |}.

Lemma second_call_returns_memoised_result_witness :
  (Brew.setupBrew brewHost "" "" "x64" Brew.initial
     = (Ok (Some (Brew.info "/usr/bin")),
        {| Brew.binDir := Some "/usr/bin"; Brew.trace := [Brew.Which] |})
   ∧ Brew.setupBrew brewHost "" "" "x64"
       {| Brew.binDir := Some "/usr/bin"; Brew.trace := [Brew.Which] |}
     = (Ok (Some (Brew.info "/usr/bin")),
        {| Brew.binDir := Some "/usr/bin"; Brew.trace := [Brew.Which] |}))
  ∧ ((0 < 1)%nat
     ∧ (easySetup "12" "/opt/llvm" "x64" freshState).1
         = Ok (Brew.info "/opt/llvm")
     ∧ easySetup "12" "/opt/llvm" "x64"
         (easySetup "12" "/opt/llvm" "x64" freshState).2
       = (Ok (Brew.info "/opt/llvm"),
          (easySetup "12" "/opt/llvm" "x64" freshState).2)).
Proof.
  destruct (second_call_returns_memoised_result
              unit unit tt "linux" false "" (λ _, false) (λ _ _, false)
              (λ _ w, w) (λ _ w, w) (λ v, v)
              (λ _ _ w, (Ok (Brew.info "/usr/lib/llvm"), w))
              (λ _ _ _ _ w, (Ok (Brew.info "/opt/llvm"), w))
              (λ _ w, (Ok tt, w)) (λ _ _ _ _ w, (Ok tt, w))
              (λ w, (Ok None, w)) ∅ ∅ 1%nat) as [Hbrew Hllvm].
  split.
  - assert (Brew.setupBrew brewHost "" "" "x64" Brew.initial
            = (Ok (Some (Brew.info "/usr/bin")),
               {| Brew.binDir := Some "/usr/bin"; Brew.trace := [Brew.Which] |}))
      as H by reflexivity.
    split; [exact H|]. exact (proj1 (Hbrew _ _ _ _ _ _ _ H)).
  - assert (0 < 1)%nat as Hsize by lia.
    assert (easySetup "12" "/opt/llvm" "x64" freshState
            = (Ok (Brew.info "/opt/llvm"),
               (easySetup "12" "/opt/llvm" "x64" freshState).2))
      as H by (vm_compute; reflexivity).
    split; [exact Hsize|]. split; [vm_compute; reflexivity|].
    exact (Hllvm "12" "/opt/llvm" "x64" freshState _ _ Hsize H).
Defined.

(** An Ubuntu host whose package manager has no LLVM 12, with the log as
    its only state; the archive and its dependencies install. *)
Definition aptLacksLlvm (version setupDir arch : string)
  : eff (Llvm.state (list string)) Install.Info :=
  Llvm.setupLLVMOnly (list string) unit
    (λ _, true) (λ message w, w ++ [message]) (λ v, v)
    (λ _ _ w, (Throw (Error "Unable to locate package llvm-12"), w))
    (λ _ _ setupDir _ w, (Ok (Brew.info (setupDir +:+ "/bin")), w))
    (λ _ w, (Ok tt, w)) 1%nat version setupDir arch tt.

Definition freshLog : Llvm.state (list string) :=
  {| Llvm.world := []; Llvm.binaryDepsCache := [];
     Llvm.depsCache := []; Llvm.setupCache := [] |}.

Lemma strategy_failure_falls_back_to_next_witness :
  aptLacksLlvm "12.0.0" "/opt/llvm" "x64" freshLog
  = (Ok (Brew.info "/opt/llvm/bin"),
     {| Llvm.world :=
          ["Failed to install llvm via system package manager Error: Unable to locate package llvm-12"];
        Llvm.binaryDepsCache := [(Some 12, tt)];
        Llvm.depsCache := []; Llvm.setupCache := [] |}).
Proof.
  destruct (strategy_failure_falls_back_to_next
              (list string) unit "linux"
              (λ _, true) (λ message w, w ++ [message]) (λ v, v)
              (λ _ _ w, (Throw (Error "Unable to locate package llvm-12"), w))
              (λ _ _ setupDir _ w, (Ok (Brew.info (setupDir +:+ "/bin")), w))
              (λ _ w, (Ok tt, w)) 1%nat
              (λ _ _, false) (λ _ _ _, false) (λ w, (Ok tt, w))
              (λ _ _ w, (Ok tt, w)) (λ _, false) (λ _, false)
              (λ _ w, (Ok (Brew.info "/usr/bin"), w))
              (λ _ w, (Ok (Brew.info "/usr/bin"), w))
              (λ _ w, (Ok (Brew.info "/usr/bin"), w))
              (λ _ w, (Ok [], w)) (λ _ _ w, (Ok "/usr/bin", w))
              (λ _ w, (Ok tt, w)))
    as (_ & Hfailed & _).
  apply (Hfailed "12.0.0" "/opt/llvm" "x64" tt freshLog freshLog
           {| Llvm.world :=
                ["Failed to install llvm via system package manager Error: Unable to locate package llvm-12"];
              Llvm.binaryDepsCache := []; Llvm.depsCache := [];
              Llvm.setupCache := [] |}
           _ (Error "Unable to locate package llvm-12"));
    reflexivity.
Defined.

End SetupProps.

(** ** Activation *)

Module ActivationProps.
Import Activation.

Section Activate.

Variable platform : string.
Variable isUbuntu : bool.
Variable xcrun : gmap string string → result (string * string).

(** The environment after the activation of [directory]. *)
Definition activate (directory : string) (s : state) : state :=
  (activateLLVM platform isUbuntu xcrun directory s).2.

(** The value that activation gives to a search-path variable whose value
    was [old]. *)
Definition prepend (directory old : string) : string :=
  directory +:+ "/lib" +:+ delimiter platform +:+ old.

(** What [setupMacOSSDK] does to the variables. *)
Definition withSdkRoot (m : gmap string string) : gmap string string :=
  if String.eqb platform "darwin" then
    match xcrun m with
    | Ok (stdout, stderr) =>
        let sdkroot := if String.eqb stdout "" then stderr else stdout in
        if String.eqb sdkroot "" then m else <["SDKROOT" := trim sdkroot]> m
    | Throw _ => m
    end
  else m.

Lemma withSdkRoot_lookup_ne (m : gmap string string) (name : string) :
  name ≠ "SDKROOT" → withSdkRoot m !! name = m !! name.
Proof.
  intros Hne. unfold withSdkRoot. destruct (String.eqb platform "darwin"); [|done].
  destruct (xcrun m) as [[out err]|e]; [|done].
  destruct (String.eqb (if String.eqb out "" then err else out) ""); [done|].
  by rewrite lookup_insert_ne.
Qed.

Lemma activate_env (directory : string) (s : state) :
  (activateLLVM platform isUbuntu xcrun directory s).1 = Ok tt
  ∧ env (activate directory s) =
      withSdkRoot
        (<["LIBRARY_PATH" := directory +:+ "/lib"]>
        (<["CXX" := addExeExt platform (directory +:+ "/bin/clang++")]>
        (<["CC" := addExeExt platform (directory +:+ "/bin/clang")]>
        (<["CPPFLAGS" := "-I" +:+ quoted (directory +:+ "/include")]>
        (<["LDFLAGS" := "-L" +:+ quoted (directory +:+ "/lib")]>
        (<["DYLD_LIBRARY_PATH" :=
             prepend directory (default "" (env s !! "DYLD_LIBRARY_PATH"))]>
        (<["LD_LIBRARY_PATH" :=
             prepend directory (default "" (env s !! "LD_LIBRARY_PATH"))]>
        (<["LLVM_PATH" := directory]> (env s))))))))).
Proof.
  unfold activate, activateLLVM, setupMacOSSDK, withSdkRoot, prepend.
  cbv [mbind eff_bind gets getenv mret eff_ret modify addEnv
       updateAptAlternatives env persisted alternatives fst snd].
  destruct (String.eqb platform "darwin").
  - destruct (xcrun _) as [[out err]|e].
    + destruct (String.eqb (if String.eqb out "" then err else out) "");
        by destruct isUbuntu.
    + by destruct isUbuntu.
  - by destruct isUbuntu.
Qed.

(** The variables whose value activation computes from the directory
    alone, and the two that it prepends to. *)
Definition fixedVariables : list string :=
  ["LLVM_PATH"; "LDFLAGS"; "CPPFLAGS"; "CC"; "CXX"; "LIBRARY_PATH"].

Definition searchPathVariables : list string :=
  ["LD_LIBRARY_PATH"; "DYLD_LIBRARY_PATH"].

Ltac lookup_inserts :=
  repeat first [ rewrite withSdkRoot_lookup_ne by done
               | rewrite lookup_insert_eq
               | rewrite lookup_insert_ne by done ].

(** C5 (amended): activation never throws; activating the same directory
    twice gives LLVM_PATH, LDFLAGS, CPPFLAGS, CC, CXX and LIBRARY_PATH the
    values that one activation gives them, and leaves every variable that
    activation does not set as it was; LD_LIBRARY_PATH and
    DYLD_LIBRARY_PATH receive [directory/lib] and the delimiter in front of
    their current value at each activation, so that a second activation
    puts a second copy of the segment in front. *)
Theorem repeated_activation_prepends_again (directory : string) (s : state) :
  let s1 := activate directory s in
  let s2 := activate directory s1 in
  (activateLLVM platform isUbuntu xcrun directory s).1 = Ok tt
  ∧ (activateLLVM platform isUbuntu xcrun directory s1).1 = Ok tt
  ∧ (∀ name, name ∈ fixedVariables →
             is_Some (env s1 !! name) ∧ env s2 !! name = env s1 !! name)
  ∧ (∀ name, name ∈ searchPathVariables →
       env s1 !! name = Some (prepend directory (default "" (env s !! name)))
       ∧ env s2 !! name
         = Some (prepend directory
                   (prepend directory (default "" (env s !! name)))))
  ∧ (∀ name, name ∉ fixedVariables ++ searchPathVariables ++ ["SDKROOT"] →
             env s1 !! name = env s !! name ∧ env s2 !! name = env s !! name).
Proof.
  intros s1 s2.
  destruct (activate_env directory s) as [Hok1 Henv1].
  destruct (activate_env directory s1) as [Hok2 Henv2].
  fold s1 in Henv1. fold s2 in Henv2.
  split_and!; [done..| | |].
  - intros name Hname. rewrite Henv2, Henv1.
    unfold fixedVariables in Hname.
    repeat (apply elem_of_cons in Hname as [->|Hname]);
      [..|by apply elem_of_nil in Hname];
      by lookup_inserts.
  - intros name Hname. rewrite Henv2, Henv1.
    unfold searchPathVariables in Hname.
    repeat (apply elem_of_cons in Hname as [->|Hname]);
      [..|by apply elem_of_nil in Hname];
      by lookup_inserts.
  - intros name Hname. rewrite Henv2, Henv1.
    assert (Forall (λ n, n ≠ name)
              (fixedVariables ++ searchPathVariables ++ ["SDKROOT"])) as Hall.
    { apply Forall_forall. by intros n Hn ->. }
    unfold fixedVariables, searchPathVariables in Hall. simpl in Hall.
    repeat (apply Forall_cons in Hall as [? Hall]).
    assert (name ≠ "SDKROOT") by done.
    by lookup_inserts.
Qed.

End Activate.

(** Activation of [/opt/llvm] on a Linux host that is not Ubuntu. *)
Definition activateOptLlvm : state → state :=
  activate "linux" false (λ _, Throw (Error "xcrun: not found")) "/opt/llvm".

Definition emptyState : state :=
  {| env := ∅; persisted := []; alternatives := [] |}.

(** The claim C5 as it is stated fails: the second activation of a
    directory puts its lib segment a second time in front of
    LD_LIBRARY_PATH and DYLD_LIBRARY_PATH, so that the environment after
    two activations is not the one after one. *)
Lemma activation_twice_accumulates :
  env (activateOptLlvm emptyState) !! "LD_LIBRARY_PATH" = Some "/opt/llvm/lib:"
  ∧ env (activateOptLlvm (activateOptLlvm emptyState)) !! "LD_LIBRARY_PATH"
    = Some "/opt/llvm/lib:/opt/llvm/lib:"
  ∧ env (activateOptLlvm (activateOptLlvm emptyState)) !! "DYLD_LIBRARY_PATH"
    = Some "/opt/llvm/lib:/opt/llvm/lib:"
  ∧ activateOptLlvm (activateOptLlvm emptyState) ≠ activateOptLlvm emptyState.
Proof.
  assert (env (activateOptLlvm emptyState) !! "LD_LIBRARY_PATH"
          = Some "/opt/llvm/lib:") as H1 by (by vm_compute).
  assert (env (activateOptLlvm (activateOptLlvm emptyState)) !! "LD_LIBRARY_PATH"
          = Some "/opt/llvm/lib:/opt/llvm/lib:") as H2 by (by vm_compute).
  split_and!; [done|done|by vm_compute|].
  intros Heq. rewrite Heq, H1 in H2. discriminate H2.
Qed.

End ActivationProps.

(** ** The rc file *)

Module RcFileProps.
Import RcFile.

Lemma add_elem_of (s : JSSet.t) (x y : string) :
  y ∈ JSSet.add s x ↔ y ∈ s ∨ y = x.
Proof.
  unfold JSSet.add. destruct (JSSet.has s x) eqn:Hhas.
  - apply JSSet_has_elem_of in Hhas. split; [by left|by intros [?| ->]].
  - rewrite elem_of_app, list_elem_of_singleton. tauto.
Qed.

Lemma add_NoDup (s : JSSet.t) (x : string) : NoDup s → NoDup (JSSet.add s x).
Proof.
  intros Hs. unfold JSSet.add. destruct (JSSet.has s x) eqn:Hhas; [done|].
  apply JSSet_has_false in Hhas. apply NoDup_app. split_and!; [done| |].
  - intros y Hy ->%list_elem_of_singleton. done.
  - apply NoDup_singleton.
Qed.

Lemma foldl_add (l : list string) (acc : JSSet.t) :
  NoDup acc →
  NoDup (foldl JSSet.add acc l)
  ∧ ∀ y, y ∈ foldl JSSet.add acc l ↔ y ∈ acc ∨ y ∈ l.
Proof.
  revert acc. induction l as [|a l IH]; intros acc Hacc; simpl.
  - split; [done|]. intros y. split; [by left|].
    by intros [?|?%elem_of_nil].
  - destruct (IH (JSSet.add acc a) (add_NoDup acc a Hacc)) as [Hnd Hin].
    split; [done|]. intros y. rewrite Hin, add_elem_of, elem_of_cons. tauto.
Qed.

(** The entries that [finalizeRC] writes back are the entries of the file,
    each of them once. *)
Lemma finalized_entries (entries : list string) :
  NoDup (reverse (JSSet.of_array (reverse entries)))
  ∧ ∀ x, x ∈ reverse (JSSet.of_array (reverse entries)) ↔ x ∈ entries.
Proof.
  destruct (foldl_add (reverse entries) [] (NoDup_nil_2 (A:=string))) as [Hnd Hin].
  split.
  - by rewrite reverse_Permutation.
  - intros x. rewrite elem_of_reverse. unfold JSSet.of_array.
    rewrite Hin, elem_of_reverse. split; [by intros [?%elem_of_nil|?]|by right].
Qed.

End RcFileProps.

(** * Further properties *)

(** ** The version registry and the locator *)

Module LlvmUrlMore.
Import LlvmUrl LlvmUrlProps.







Lemma prefix_append (a b : string) : String.prefix a (a +:+ b) = true.
Proof.
  induction a as [|c a IH]; simpl; [by destruct b|].
  by destruct (ascii_dec c c).
Qed.

(** The two hosts of LLVM archives. *)
Definition onReleaseHost (url : string) : Prop :=
  String.prefix "https://releases.llvm.org/" url = true.

Definition onGitHub (url : string) : Prop :=
  String.prefix "https://github.com/llvm/llvm-project/releases/download/llvmorg-"
                url = true.

Lemma getReleaseUrl_host (version prefix suffix : string) :
  onReleaseHost (getReleaseUrl version prefix suffix).
Proof. apply prefix_append. Qed.

Lemma getGitHubUrl_host (version prefix suffix : string) :
  onGitHub (getGitHubUrl version prefix suffix).
Proof. apply prefix_append. Qed.

Lemma parse_9_0_1 :
  Semver.parse "9.0.1"
  = Some {| Semver.major := 9; Semver.minor := 0; Semver.patch := 1;
            Semver.prerelease := [] |}.
Proof. by vm_compute. Qed.



Section Locator.

Variable isValidUrl : string → bool.

Lemma getUrl_hosts (platform s u : string) :
  getUrl isValidUrl platform s = Ok (Some u) → onReleaseHost u ∨ onGitHub u.
Proof.
  unfold LlvmUrl.getUrl.
  destruct (String.eqb platform "darwin").
  { unfold getDarwinUrl. destruct (JSSet.has DARWIN_MISSING s); [done|].
    destruct (Semver.lte s "9.0.1") as [[]|]; [| |done]; intros [= <-];
      [left; apply getReleaseUrl_host|right; apply getGitHubUrl_host]. }
  destruct (String.eqb platform "linux").
  { destruct (getLinuxUrl s) as [url|] eqn:Hl; [|done]. intros [= <-].
    rewrite (getLinuxUrl_unfold s _ _ eq_refl eq_refl) in Hl.
    apply getLinuxUrl_builtFor in Hl as [->| ->];
      [left; apply getReleaseUrl_host|right; apply getGitHubUrl_host]. }
  destruct (String.eqb platform "win32"); [|done].
  unfold getWin32Url. destruct (JSSet.has WIN32_MISSING s); [done|].
  destruct (Semver.lte s "3.7.0") as [le37|]; [|done].
  destruct (Semver.lte s "9.0.1") as [le9|]; [|done].
  unfold mbind, result_bind. destruct (_ || _); intros [= <-];
    [right; apply getGitHubUrl_host|left; apply getReleaseUrl_host].
Qed.

Lemma exact_request_candidates (version : string) :
  version ∈ VERSIONS → JS.testSpecific version = true →
  getSpecificVersions version = [version].
Proof.
  revert version.
  apply (Forall_forall
           (λ v, JS.testSpecific v = true → getSpecificVersions v = [v])).
  assert (Forall (λ v, negb (JS.testSpecific v)
                       || bool_decide (getSpecificVersions v = [v]) = true)
                 VERSIONS) as H
    by (apply (bool_decide_unpack _); by vm_compute).
  eapply Forall_impl; [exact H|]. intros v Hv Hs. simpl in Hv.
  rewrite Hs in Hv. by apply bool_decide_eq_true in Hv.
Qed.

(** X2: what the locator returns is the most recent specific version of
    the registry that starts with the requested version and has a URL that
    the probe confirms; a request for a specific version is answered with
    that very version or not at all. *)
Theorem locator_returns_most_recent_confirmed (platform version s u : string) :
  getSpecificVersionAndUrl isValidUrl platform version = Ok (s, u) →
  version ∈ VERSIONS ∧ s ∈ SPECIFIC ∧ JS.startsWith s version = true
  ∧ (JS.testSpecific version = true → s = version)
  ∧ getUrl isValidUrl platform s = Ok (Some u) ∧ isValidUrl u = true
  ∧ ∀ s' u', s' ∈ SPECIFIC → JS.startsWith s' version = true →
             getUrl isValidUrl platform s' = Ok (Some u') →
             isValidUrl u' = true →
             s' = s ∨ newer s s'.
Proof.
  unfold LlvmUrl.getSpecificVersionAndUrl.
  destruct (JSSet.has VERSIONS version) eqn:Hhas; [|done].
  apply JSSet_has_elem_of in Hhas. simpl.
  destruct (firstValid isValidUrl platform _) as [[[s0 u0]|]|e] eqn:Hf; [|done..].
  intros [= -> ->].
  apply firstValid_Some in Hf as (before & after & Hc & Hu & Hv & Hb).
  assert (s ∈ getSpecificVersions version) as Hs.
  { rewrite Hc. apply elem_of_app. right. left. }
  pose proof (getSpecificVersions_newer version Hhas) as Hsorted.
  rewrite Hc in Hsorted.
  apply getSpecificVersions_elem_of in Hs as Hs'. destruct Hs' as (_ & _ & Hstart).
  split_and!; try done.
  - by eapply getSpecificVersions_SPECIFIC.
  - intros Hspec. rewrite (exact_request_candidates version Hhas Hspec) in Hs.
    by apply list_elem_of_singleton in Hs.
  - intros s' u' Hs' Hstart' Hu' Hv'.
    assert (s' ∈ before ++ s :: after) as Hin.
    { rewrite <-Hc. apply getSpecificVersions_elem_of.
      rewrite <-VERSIONS_specific in Hs'.
      apply list_elem_of_filter in Hs' as [? ?]. done. }
    apply elem_of_app in Hin as [Hin|Hin].
    + specialize (Hb s' Hin u' Hu'). congruence.
    + apply elem_of_cons in Hin as [->|Hin]; [by left|right].
      apply StronglySorted_app in Hsorted as (_ & _ & Hsa).
      apply StronglySorted_cons in Hsa as [Hall _].
      rewrite Forall_forall in Hall. by apply Hall.
Qed.

(** X3: on a platform other than darwin, linux and win32 no candidate has
    a URL, and the locator throws the unsupported-target error for every
    requested version, whatever the probe answers. *)
Theorem unknown_platform_is_unsupported (platform version : string) :
  platform ∉ ["darwin"; "linux"; "win32"] →
  (∀ s, getUrl isValidUrl platform s = Ok None)
  ∧ getSpecificVersionAndUrl isValidUrl platform version
    = Throw (unsupportedTarget platform version).
Proof.
  intros Hp.
  assert (∀ s, getUrl isValidUrl platform s = Ok None) as Hnone.
  { intros s. unfold LlvmUrl.getUrl.
    destruct (String.eqb_spec platform "darwin") as [->|_].
    { exfalso. apply Hp. left. }
    destruct (String.eqb_spec platform "linux") as [->|_].
    { exfalso. apply Hp. right. left. }
    destruct (String.eqb_spec platform "win32") as [->|_]; [|done].
    exfalso. apply Hp. do 2 right. left. }
  split; [done|].
  assert (∀ l, firstValid isValidUrl platform l = Ok None) as Hloop.
  { induction l as [|c l IH]; simpl; [done|]. by rewrite Hnone. }
  unfold LlvmUrl.getSpecificVersionAndUrl. rewrite Hloop.
  by destruct (negb _).
Qed.

(** X4: every URL that the locator returns is on releases.llvm.org or
    under the release downloads of llvm/llvm-project on GitHub. *)
Theorem located_url_is_on_a_known_host (platform version s u : string) :
  getSpecificVersionAndUrl isValidUrl platform version = Ok (s, u) →
  onReleaseHost u ∨ onGitHub u.
Proof.
  unfold LlvmUrl.getSpecificVersionAndUrl. destruct (negb _); [done|].
  destruct (firstValid isValidUrl platform _) as [[[s0 u0]|]|e] eqn:Hf; [|done..].
  intros [= -> ->].
  apply firstValid_Some in Hf as (_ & _ & _ & Hu & _).
  by eapply getUrl_hosts.
Qed.



End Locator.

Lemma linux_host (version tag url : string) (sv : Semver.version) :
  (le ← Semver.lte version "9.0.1";
   if le : bool
   then Ok (getReleaseUrl version "clang+llvm-" (linuxSuffix version tag))
   else Ok (getGitHubUrl version "clang+llvm-" (linuxSuffix version tag)))
    = Ok url →
  Semver.parse version = Some sv →
  if atMost sv 9 0 1 then onReleaseHost url else onGitHub url.
Proof.
  intros Hurl Hp. revert Hurl.
  rewrite (lte_release version sv 9 0 1 Hp "9.0.1" parse_9_0_1).
  unfold mbind, result_bind. destruct (atMost sv 9 0 1); intros [= <-];
    [apply getReleaseUrl_host|apply getGitHubUrl_host].
Qed.

(** X6: on Darwin and on Linux a version that is at most 9.0.1 (on Linux,
    after the release-candidate override) gets its URL on
    releases.llvm.org, and a later version gets it on GitHub. *)
Theorem darwin_linux_host_by_threshold (v url : string) (sv : Semver.version) :
  (getDarwinUrl v = Ok (Some url) → Semver.parse v = Some sv →
   if atMost sv 9 0 1 then onReleaseHost url else onGitHub url)
  ∧ (getLinuxUrl v = Ok url →
     Semver.parse (default v (UBUNTU_RC !! v)) = Some sv →
     if atMost sv 9 0 1 then onReleaseHost url else onGitHub url).
Proof.
  split.
  - unfold getDarwinUrl. destruct (JSSet.has DARWIN_MISSING v); [done|].
    intros Hurl Hp. revert Hurl.
    rewrite (lte_release v sv 9 0 1 Hp "9.0.1" parse_9_0_1).
    unfold mbind, result_bind. destruct (atMost sv 9 0 1); intros [= <-];
      [apply getReleaseUrl_host|apply getGitHubUrl_host].
  - rewrite (getLinuxUrl_unfold v _ _ eq_refl eq_refl). apply linux_host.
Qed.

Definition url901 : string :=
  "https://releases.llvm.org/9.0.1/clang+llvm-9.0.1-x86_64-apple-darwin.tar.xz".

Lemma locator_returns_most_recent_confirmed_witness :
  getSpecificVersionAndUrl (λ _, true) "darwin" "9" = Ok ("9.0.1", url901)
  ∧ "9.0.1" ∈ SPECIFIC ∧ JS.startsWith "9.0.1" "9" = true.
Proof.
  assert (getSpecificVersionAndUrl (λ _, true) "darwin" "9"
          = Ok ("9.0.1", url901)) as H by (by vm_compute).
  split; [exact H|].
  destruct (locator_returns_most_recent_confirmed
              (λ _, true) "darwin" "9" "9.0.1" url901 H)
    as (_ & Hs & Hstart & _).
  split; [exact Hs|exact Hstart].
Defined.

Lemma unknown_platform_is_unsupported_witness :
  ("freebsd" ∉ ["darwin"; "linux"; "win32"])
  ∧ getSpecificVersionAndUrl (λ _, true) "freebsd" "12"
    = Throw (unsupportedTarget "freebsd" "12").
Proof.
  assert ("freebsd" ∉ ["darwin"; "linux"; "win32"]) as H
    by (apply (bool_decide_unpack _); by vm_compute).
  split; [exact H|].
  exact (proj2 (unknown_platform_is_unsupported (λ _, true) "freebsd" "12" H)).
Defined.

Lemma located_url_is_on_a_known_host_witness :
  getSpecificVersionAndUrl (λ _, true) "darwin" "9" = Ok ("9.0.1", url901)
  ∧ (onReleaseHost url901 ∨ onGitHub url901).
Proof.
  assert (getSpecificVersionAndUrl (λ _, true) "darwin" "9"
          = Ok ("9.0.1", url901)) as H by (by vm_compute).
  split; [exact H|].
  exact (located_url_is_on_a_known_host (λ _, true) "darwin" "9" "9.0.1" url901 H).
Defined.

End LlvmUrlMore.

(** ** Version resolution and synchronisation *)

Module VersionsMore.
Import Versions VersionsProps.

Lemma foldl_assign_dom
    (target : string) (l : list string) (opts : gmap string string) :
  (∀ t, t ∈ l → is_Some (opts !! t)) →
  dom (foldl (λ o tool, partial_alter (λ _, Some target) tool o) opts l)
  = dom opts.
Proof.
  intros Hl. apply set_eq. intros t. rewrite !elem_of_dom, foldl_assign_lookup.
  destruct (decide (t ∈ l)) as [Ht|Ht]; [|done].
  split; [intros _; by apply Hl|eauto].
Qed.

(** The tools in use and those of them with an explicit version. *)
Definition toolsInUse (opts : gmap string string) (tools : list string)
  : list string :=
  filter (λ tool, is_Some (opts !! tool)) tools.

Definition toolsNonDefault (opts : gmap string string) (tools : list string)
  : list string :=
  filter (λ tool, isVersionDefault (opts !! tool) = false) (toolsInUse opts tools).

Definition targetOf (opts : gmap string string) (tools : list string)
  : option string :=
  match toolsNonDefault opts tools with
  | tool :: _ => opts !! tool
  | [] => Some "true"
  end.

Lemma syncVersions_unfold (opts : gmap string string) (tools : list string) :
  syncVersions opts tools =
    if existsb (λ tool, bool_decide (opts !! tool ≠ targetOf opts tools))
               (toolsNonDefault opts tools)
    then (false, opts)
    else (true,
          foldl (λ o tool, partial_alter (λ _, targetOf opts tools) tool o)
                opts (toolsInUse opts tools)).
Proof. reflexivity. Qed.

Lemma targetOf_Some (opts : gmap string string) (tools : list string) :
  ∃ target, targetOf opts tools = Some target
            ∧ (target = "true" → toolsNonDefault opts tools = [])
            ∧ (target ≠ "true" → toolsNonDefault opts tools ≠ []).
Proof.
  unfold targetOf. destruct (toolsNonDefault opts tools) as [|t0 rest] eqn:Hnd.
  { exists "true". by split_and!. }
  assert (t0 ∈ toolsNonDefault opts tools) as Ht0 by (rewrite Hnd; left).
  unfold toolsNonDefault in Ht0.
  apply list_elem_of_filter in Ht0 as [Hdef _].
  apply isVersionDefault_false in Hdef as (v & -> & Hv).
  exists v. by split_and!.
Qed.

Lemma toolsInUse_elem_of
    (opts : gmap string string) (tools : list string) (t : string) :
  t ∈ toolsInUse opts tools ↔ t ∈ tools ∧ is_Some (opts !! t).
Proof. unfold toolsInUse. rewrite list_elem_of_filter. tauto. Qed.

Lemma toolsNonDefault_agree
    (opts : gmap string string) (tools : list string) :
  existsb (λ tool, bool_decide (opts !! tool ≠ targetOf opts tools))
          (toolsNonDefault opts tools) = false →
  ∀ t, t ∈ toolsNonDefault opts tools → opts !! t = targetOf opts tools.
Proof.
  intros Hex t Ht%list_elem_of_In. apply dec_stable. intros Hne.
  assert (existsb (λ tool, bool_decide (opts !! tool ≠ targetOf opts tools))
                  (toolsNonDefault opts tools) = true) as Habs; [|congruence].
  apply existsb_exists. exists t. split; [done|]. by apply bool_decide_eq_true.
Qed.

Lemma existsb_false {A} (f : A → bool) (l : list A) :
  (∀ x, x ∈ l → f x = false) → existsb f l = false.
Proof.
  intros H. destruct (existsb f l) eqn:E; [|done].
  apply existsb_exists in E as (x & Hx%list_elem_of_In & Hfx).
  rewrite (H x Hx) in Hfx. done.
Qed.

(** X7: a successful synchronisation is stable: synchronising the
    options it produced succeeds again and changes nothing. *)
Theorem syncVersions_idempotent
    (opts : gmap string string) (tools : list string)
    (opts' : gmap string string) :
  syncVersions opts tools = (true, opts') →
  syncVersions opts' tools = (true, opts').
Proof.
  rewrite syncVersions_unfold.
  destruct (existsb _ (toolsNonDefault opts tools)) eqn:Hex; [done|].
  intros [= <-].
  destruct (targetOf_Some opts tools) as (target & Htgt & _ & Hne).
  set (opts' := foldl _ opts _).
  assert (∀ t, opts' !! t
               = if decide (t ∈ toolsInUse opts tools)
                 then Some target else opts !! t) as Hlook.
  { intros t. subst opts'. by rewrite foldl_assign_lookup, Htgt. }
  assert (toolsInUse opts' tools = toolsInUse opts tools) as Hiu.
  { unfold toolsInUse. apply list_filter_iff. intros t. rewrite Hlook.
    destruct (decide (t ∈ toolsInUse opts tools)) as [Ht|Ht]; [|done].
    apply toolsInUse_elem_of in Ht as [_ Ht]. split; eauto. }
  assert (∀ t, t ∈ toolsInUse opts tools → opts' !! t = Some target) as Hin.
  { intros t Ht. by rewrite Hlook, decide_True. }
  assert (∀ t, t ∈ toolsNonDefault opts' tools → opts' !! t = Some target)
    as Hnd.
  { intros t Ht. unfold toolsNonDefault in Ht.
    apply list_elem_of_filter in Ht as [_ Ht]. rewrite Hiu in Ht. by apply Hin. }
  assert (targetOf opts' tools = Some target) as Htgt'.
  { unfold targetOf. destruct (toolsNonDefault opts' tools) as [|t0 rest] eqn:E.
    - destruct (decide (target = "true")) as [->|Htrue]; [done|].
      exfalso. specialize (Hne Htrue).
      destruct (toolsNonDefault opts tools) as [|t1 rest1] eqn:E1; [done|].
      assert (t1 ∈ toolsNonDefault opts tools) as Ht1 by (rewrite E1; left).
      unfold toolsNonDefault in Ht1.
      apply list_elem_of_filter in Ht1 as [_ Ht1].
      assert (t1 ∈ toolsNonDefault opts' tools) as Habs; [|rewrite E in Habs;
        by apply elem_of_nil in Habs].
      unfold toolsNonDefault. apply list_elem_of_filter. rewrite Hiu.
      split; [|done]. rewrite (Hin t1 Ht1).
      apply isVersionDefault_false. eauto.
    - apply Hnd. rewrite ?E. left. }
  rewrite syncVersions_unfold, Htgt', Hiu.
  rewrite existsb_false.
  - f_equal. apply map_eq. intros t. rewrite foldl_assign_lookup.
    destruct (decide (t ∈ toolsInUse opts tools)) as [Ht|Ht]; [|done].
    symmetry. by apply Hin.
  - intros t Ht. apply bool_decide_eq_false. intros Hneq. apply Hneq.
    by apply Hnd.
Qed.

Definition someOpts : gmap string string :=
  <["gcc" := "11"]> (<["llvm" := "true"]> (<["cmake" := "3.20"]> ∅)).

Definition synced : gmap string string :=
  (syncVersions someOpts ["llvm"; "gcc"; "ninja"]).2.

Lemma syncVersions_idempotent_witness :
  synced !! "llvm" = Some "11"
  ∧ syncVersions synced ["llvm"; "gcc"; "ninja"] = (true, synced).
Proof.
  split; [by vm_compute|].
  apply (syncVersions_idempotent someOpts). by vm_compute.
Defined.

(** X8: the synchronisation never adds or removes an option, and the only
    options it rewrites are those of listed tools set to the default
    "true", which receive the explicit version of one of the listed
    tools; an option with an explicit version keeps it. *)
Theorem syncVersions_rewrites_only_defaults
    (opts : gmap string string) (tools : list string) :
  let opts' := (syncVersions opts tools).2 in
  dom opts' = dom opts
  ∧ ∀ t, opts' !! t ≠ opts !! t →
         t ∈ tools ∧ opts !! t = Some "true"
         ∧ ∃ t0 v, explicit opts tools t0 v ∧ opts' !! t = Some v.
Proof.
  intros opts'. subst opts'. rewrite syncVersions_unfold.
  destruct (existsb _ (toolsNonDefault opts tools)) eqn:Hex; simpl; [done|].
  pose proof (toolsNonDefault_agree _ _ Hex) as Hall.
  destruct (targetOf_Some opts tools) as (target & Htgt & Htrue & Hne).
  rewrite Htgt in *. split.
  - apply foldl_assign_dom. by intros t [_ Ht]%toolsInUse_elem_of.
  - intros t. rewrite foldl_assign_lookup.
    destruct (decide (t ∈ toolsInUse opts tools)) as [Ht|Ht]; [|done].
    apply toolsInUse_elem_of in Ht as [Ht [v Hv]]. intros Hchg.
    destruct (decide (v = "true")) as [->|Hv'].
    + split_and!; [done..|].
      assert (target ≠ "true") as Hexp by congruence.
      specialize (Hne Hexp).
      destruct (toolsNonDefault opts tools) as [|t0 rest] eqn:E; [done|].
      assert (t0 ∈ t0 :: rest) as Ht0 by left.
      pose proof (Hall t0 Ht0) as Ht0v. rewrite <- E in Ht0.
      apply toolsNonDefault_elem_of in Ht0 as (v0 & Hv0).
      exists t0, v0. split; [done|].
      destruct Hv0 as (_ & Hv0 & _). congruence.
    + exfalso. apply Hchg. symmetry. apply Hall.
      apply toolsNonDefault_elem_of. exists v. by split_and!.
Qed.

End VersionsMore.


(** ** Homebrew *)

Module BrewMore.
Import Brew.


Ltac run_setupBrew :=
  unfold setupBrew, mbind, eff_bind, gets, ask, perform, setBinDir, modify,
    liftResult, mret, eff_ret, try_catch, throw.

(** X9: a call that returns yields no installation exactly on a platform
    other than darwin and linux, and then changes nothing; otherwise the
    directory it returns is the one remembered for later calls: the
    remembered one if there was one, else the directory of the brew found
    on the PATH, else the platform's installation path. *)
Theorem setupBrew_result_is_remembered
    (h : host) (version setupDir arch : string)
    (p p' : process) (r : option Install.Info) :
  setupBrew h version setupDir arch p = (Ok r, p') →
  match r with
  | None => (platform h ∉ ["darwin"; "linux"]) ∧ p' = p
  | Some i =>
      platform h ∈ ["darwin"; "linux"]
      ∧ binDir p' = Some (Install.binDir i)
      ∧ (∀ d, binDir p = Some d → Install.binDir i = d ∧ p' = p)
      ∧ (binDir p = None →
         match whichBrew h (trace p) with
         | Some path => Install.binDir i = dirname h path
         | None => getBrewPath h = Ok (Install.binDir i)
         end)
  end.
Proof.
  run_setupBrew.
  destruct (decide (platform h ∈ ["darwin"; "linux"])) as [Hp|Hp].
  2: { rewrite bool_decide_eq_false_2 by done. by intros [= <- <-]. }
  rewrite bool_decide_eq_true_2 by done.
  destruct p as [[d|] tr]; simpl.
  { intros [= <- <-]. simpl. split_and!; [done..| |done]. by intros ? [= <-]. }
  destruct (whichBrew h tr) as [path|]; simpl.
  { by intros [= <- <-]. }
  destruct (download h _) as [[]|e]; simpl; [|done].
  destruct (installer h _) as [[]|e]; simpl; [|done].
  destruct (getBrewPath h) as [d|e]; simpl; [|done].
  destruct (addPath h _) as [[]|e]; simpl; [|done].
  by intros [= <- <-].
Qed.

Definition linuxHost : host :=
  {| platform := "linux"; arch := "x64";
     whichBrew := λ _, None;
     download := λ _, Ok tt;
     installer := λ _, Ok tt;
     addPath := λ _, Ok tt;
     dirname := λ path, path |}.

Lemma setupBrew_result_is_remembered_witness :
  binDir (setupBrew linuxHost "" "" "x64" initial).2
  = Some "/home/linuxbrew/.linuxbrew/bin/".
Proof.
  destruct (setupBrew_result_is_remembered linuxHost "" "" "x64" initial
              (setupBrew linuxHost "" "" "x64" initial).2
              (Some (info "/home/linuxbrew/.linuxbrew/bin/")))
    as (_ & H & _); [by vm_compute|exact H].
Defined.

Lemma installerRuns_app (p : process) (tr : list event) (evs : list event) :
  trace p = tr ++ evs →
  installerRuns p
  = (length (filter (λ e, e = RunInstaller) tr)
     + length (filter (λ e, e = RunInstaller) evs))%nat.
Proof.
  unfold installerRuns. intros ->. by rewrite filter_app, length_app.
Qed.

(** X10: whatever its outcome, a call only appends to what the process
    did; it runs the installer script at most once, and only on darwin or
    linux, with no directory remembered, no brew on the PATH and the
    script downloaded; with a directory remembered it does nothing. *)
Theorem setupBrew_installer_at_most_once
    (h : host) (version setupDir arch : string) (p : process) :
  let p' := (setupBrew h version setupDir arch p).2 in
  ∃ evs,
    trace p' = trace p ++ evs
    ∧ (installerRuns p' ≤ installerRuns p + 1)%nat
    ∧ (RunInstaller ∈ evs →
       platform h ∈ ["darwin"; "linux"] ∧ binDir p = None
       ∧ whichBrew h (trace p) = None
       ∧ download h (trace p ++ [Which]) = Ok tt)
    ∧ (is_Some (binDir p) → p' = p).
Proof.
  intros p'. subst p'.
  assert (∀ evs : list event,
            RunInstaller ∉ evs →
            length (filter (λ e, e = RunInstaller) evs) = 0%nat) as Hnone.
  { intros evs Hevs. apply length_zero_iff_nil.
    destruct (filter _ evs) as [|e l] eqn:E; [done|]. exfalso.
    assert (e ∈ filter (λ e, e = RunInstaller) evs) as He by (rewrite E; left).
    apply list_elem_of_filter in He as [-> He]. done. }
  assert (∀ (q : process) (evs : list event),
            trace q = trace p ++ evs →
            (length (filter (λ e, e = RunInstaller) evs) ≤ 1)%nat →
            (installerRuns q ≤ installerRuns p + 1)%nat) as Hcount.
  { intros q evs Hq Hle. rewrite (installerRuns_app q _ _ Hq).
    unfold installerRuns. lia. }
  run_setupBrew.
  destruct (decide (platform h ∈ ["darwin"; "linux"])) as [Hp|Hp].
  2: { rewrite bool_decide_eq_false_2 by done. simpl. exists [].
       rewrite app_nil_r. split_and!; [done|lia| |done].
       by intros ?%elem_of_nil. }
  rewrite bool_decide_eq_true_2 by done.
  destruct p as [[d|] tr]; simpl.
  { exists []. rewrite app_nil_r. split_and!; [done|lia| |done].
    by intros ?%elem_of_nil. }
  destruct (whichBrew h tr) as [path|] eqn:Hwhich; simpl.
  { exists [Which]. split_and!; [done| | |by intros [? [=]]].
    - eapply Hcount; [simpl; reflexivity|]. vm_compute. lia.
    - intros Hin%list_elem_of_singleton. done. }
  destruct (download h _) as [[]|e] eqn:Hdl; simpl.
  2: { exists [Which; Download]. rewrite <- app_assoc.
       split_and!; [done| | |by intros [? [=]]].
       - eapply Hcount; [simpl; rewrite <- ?app_assoc; reflexivity|]. vm_compute. lia.
       - intros [Hin|Hin%list_elem_of_singleton]%elem_of_cons; done. }
  destruct (installer h _) as [[]|e] eqn:Hinst; simpl.
  2: { exists [Which; Download; RunInstaller]. rewrite <- !app_assoc.
       split_and!; [done| |done|by intros [? [=]]].
       eapply Hcount; [simpl; rewrite <- ?app_assoc; reflexivity|]. vm_compute. lia. }
  destruct (getBrewPath h) as [d|e]; simpl.
  2: { exists [Which; Download; RunInstaller]. rewrite <- !app_assoc.
       split_and!; [done| |done|by intros [? [=]]].
       eapply Hcount; [simpl; rewrite <- ?app_assoc; reflexivity|]. vm_compute. lia. }
  destruct (addPath h _) as [[]|e]; simpl.
  all: exists [Which; Download; RunInstaller; AddPath d]; rewrite <- !app_assoc.
  all: split_and!; [done| |done|by intros [? [=]]].
  all: eapply Hcount; [simpl; rewrite <- ?app_assoc; reflexivity|]; vm_compute; lia.
Qed.




End BrewMore.

(** ** LLVM set-up: what is run, and what is not *)

Module SetupMore.

Section Memoize.

Context {K V S : Type} `{EqDecision K}.
Variable getCache : S → list (K * V).
Variable setCache : list (K * V) → S → S.
Variable fn : K → eff S V.

Hypothesis get_set : ∀ c s, getCache (setCache c s) = c.



End Memoize.

Section Setup.

Variable W : Type.
Variable LLVMPackages : Type.
Variable LLVMPackages_All : LLVMPackages.
Variable LLVMPackages_ClangFormat : LLVMPackages.
Variable platform : string.
Variable GITHUB_ACTIONS : bool.
Variable matcherPath : string.
Variable isUbuntu : W → bool.
Variable pathExists : string → W → bool.
Variable info : string → W → W.
Variable warning : string → W → W.
Variable semverCoerceIfInvalid : string → string.
Variable setupLLVMApt : option Z → LLVMPackages → eff W Install.Info.
Variable setupBin : string → string → string → string → eff W Install.Info.
Variable setupAptPack : list string → eff W unit.
Variable setupGcc : string → string → string → Z → eff W unit.
Variable ubuntuVersion : eff W (option (list Z)).
Variable DefaultUbuntuVersion : gmap string (gmap Z string).
Variable DefaultVersions : gmap string string.
Variable maxSize : nat.

Local Notation "'setupLLVMWithoutActivation'" :=
  (Llvm.setupLLVMWithoutActivation W LLVMPackages LLVMPackages_All platform
     GITHUB_ACTIONS matcherPath isUbuntu pathExists info warning
     semverCoerceIfInvalid setupLLVMApt setupBin setupAptPack setupGcc
     ubuntuVersion DefaultUbuntuVersion DefaultVersions maxSize).

Local Notation "'setupLLVMOnly'" :=
  (Llvm.setupLLVMOnly W LLVMPackages isUbuntu info semverCoerceIfInvalid
     setupLLVMApt setupBin setupAptPack maxSize).

Local Notation "'setupClangFormat'" :=
  (Llvm.setupClangFormat W LLVMPackages LLVMPackages_ClangFormat isUbuntu info
     semverCoerceIfInvalid setupLLVMApt setupBin setupAptPack maxSize).

Local Notation "'setupClangTools'" :=
  (Llvm.setupClangTools W LLVMPackages LLVMPackages_All isUbuntu info
     semverCoerceIfInvalid setupLLVMApt setupBin setupAptPack maxSize).

Local Notation "'llvmBinaryDeps'" :=
  (Llvm.llvmBinaryDeps W isUbuntu setupAptPack maxSize).

Local Notation "'setupLLVMDeps'" :=
  (Llvm.setupLLVMDeps W platform setupGcc ubuntuVersion DefaultUbuntuVersion
     DefaultVersions maxSize).

Local Notation "'addLLVMLoggingMatcher'" :=
  (Llvm.addLLVMLoggingMatcher W GITHUB_ACTIONS matcherPath pathExists info
     warning).











(** X13: on Ubuntu, a package manager that installs LLVM settles the
    set-up of clang-format and of the clang tools: each returns the
    installation of the package manager, asked for the clang-format
    packages and for all packages in turn, and the host is as the package
    manager left it; no archive is fetched and the set-up directory plays
    no part. *)
Theorem package_manager_success_is_final
    (version setupDir arch : string) (s s' : Llvm.state W) (i : Install.Info) :
  isUbuntu (Llvm.world W s) = true →
  let majorVersion :=
    Llvm.parseInt (hd "" (JS.split "."%char (semverCoerceIfInvalid version))) in
  (Llvm.lift W (setupLLVMApt majorVersion LLVMPackages_ClangFormat) s
     = (Ok i, s') →
   setupClangFormat version setupDir arch s = (Ok i, s'))
  ∧ (Llvm.lift W (setupLLVMApt majorVersion LLVMPackages_All) s = (Ok i, s') →
     setupClangTools version setupDir arch s = (Ok i, s')).
Proof.
  intros Hubuntu majorVersion.
  split; intros Hapt;
    unfold Llvm.setupClangFormat, Llvm.setupClangTools, Llvm.setupLLVMOnly;
    fold majorVersion;
    cbv [try_catch mbind eff_bind gets mret eff_ret];
    by rewrite Hubuntu, Hapt.
Qed.

End Setup.





Definition idle : Llvm.state unit :=
  {| Llvm.world := tt; Llvm.binaryDepsCache := [];
     Llvm.depsCache := []; Llvm.setupCache := [] |}.

(** An Ubuntu host whose package manager installs LLVM. *)
Lemma package_manager_success_is_final_witness :
  Llvm.setupClangFormat unit bool true (λ _, true) (λ _ w, w) (λ v, v)
    (λ _ packages w,
       (Ok (Brew.info (if packages : bool then "/usr/lib/clang-format"
                       else "/usr/lib/llvm")), w))
    (λ _ _ setupDir _ w, (Ok (Brew.info setupDir), w))
    (λ _ w, (Ok tt, w)) 1%nat "12" "/opt/llvm" "x64" idle
  = (Ok (Brew.info "/usr/lib/clang-format"), idle).
Proof.
  apply (package_manager_success_is_final unit bool false true
           (λ _, true) (λ _ w, w) (λ v, v)
           (λ _ packages w,
              (Ok (Brew.info (if packages : bool then "/usr/lib/clang-format"
                              else "/usr/lib/llvm")), w))
           (λ _ _ setupDir _ w, (Ok (Brew.info setupDir), w))
           (λ _ w, (Ok tt, w)) 1%nat "12" "/opt/llvm" "x64");
    reflexivity.
Defined.

End SetupMore.

(** ** pip packages *)

Module PipMore.

Section Pip.

Variable W : Type.
Variable platform : string.
Variable info : string → W → W.
Variable hasPipx : string → W → bool.
Variable pipHasPackage : string → string → W → bool.
Variable preparePipx : eff W unit.
Variable execaSync : string → list string → eff W unit.
Variable isArch : W → bool.
Variable hasDnf : W → bool.
Variable isUbuntu : W → bool.
Variable setupPacmanPack : string → eff W Install.Info.
Variable setupDnfPack : list string → eff W Install.Info.
Variable setupAptPack : list string → eff W Install.Info.
Variable addPythonBaseExecPrefix : string → eff W (list string).
Variable findBinDir : list string → string → eff W string.
Variable addPath : string → eff W unit.

Local Notation "'setupPipPackSystem'" :=
  (Pip.setupPipPackSystem W platform info isArch hasDnf isUbuntu
     setupPacmanPack setupDnfPack setupAptPack).

Local Notation "'pipInstall'" := (Pip.pipInstall W info preparePipx execaSync).

Local Notation "'setupPipPackWithPython'" :=
  (Pip.setupPipPackWithPython W platform info hasPipx pipHasPackage
     preparePipx execaSync isArch hasDnf isUbuntu setupPacmanPack
     setupDnfPack setupAptPack addPythonBaseExecPrefix findBinDir addPath).

Local Notation "'isPipxFor'" := (SetupProps.isPipxFor W hasPipx).

Local Notation "'afterInstall'" :=
  (SetupProps.afterInstall W addPythonBaseExecPrefix findBinDir addPath).

Lemma setupPipPackWithPython_unfold
    (givenPython name : string) (version : option string)
    (options : Pip.SetupPipPackOptions) (w : W) :
  setupPipPackWithPython givenPython name version options w
  = match Pip.installWithFallback W platform info hasPipx pipHasPackage
            preparePipx execaSync isArch hasDnf isUbuntu setupPacmanPack
            setupDnfPack setupAptPack givenPython name version options w with
    | (Ok _, w') => afterInstall givenPython name w'
    | (Throw e, w') => (Throw e, w')
    end.
Proof.
  unfold Pip.setupPipPackWithPython. unfold mbind at 1. unfold eff_bind at 1.
  by destruct (Pip.installWithFallback _ _ _ _ _ _ _ _ _ _ _ _ _ _ _ _ _ _)
    as [[[]|e] w'].
Qed.

(** X14: when pip knows the package and the installation through pip or
    pipx succeeds, the system package manager is not consulted on any
    platform: the set-up goes on from the state the installer left. *)
Theorem pip_success_skips_system_package_manager
    (givenPython name : string) (version : option string)
    (options : Pip.SetupPipPackOptions) (w w0 : W) :
  pipHasPackage givenPython name w = true →
  pipInstall givenPython name version (isPipxFor options givenPython w)
             (default true (Pip.user options))
             (default false (Pip.upgrade options)) w = (Ok tt, w0) →
  setupPipPackWithPython givenPython name version options w
  = afterInstall givenPython name w0.
Proof.
  intros Hhas Hpip. rewrite setupPipPackWithPython_unfold.
  unfold Pip.installWithFallback.
  cbv [try_catch mbind eff_bind gets mret eff_ret].
  fold (isPipxFor options givenPython w). by rewrite Hhas, Hpip.
Qed.

(** X15: off Linux there is no system package manager to fall back to,
    and asking for it changes nothing.  A package that pip does not know
    makes the set-up throw the not-found error that names the package and
    the installer, with the host as it was; when pip or pipx fails, the
    set-up logs the failure and throws it, naming the package, the
    installer and the original error. *)
Theorem off_linux_pip_failures_are_reported
    (givenPython name : string) (version : option string)
    (options : Pip.SetupPipPackOptions) (w : W) :
  platform ≠ "linux" →
  let isPipx := isPipxFor options givenPython w in
  let pip := SetupProps.pipName isPipx in
  setupPipPackSystem name w = (Ok None, w)
  ∧ (pipHasPackage givenPython name w = false →
     setupPipPackWithPython givenPython name version options w
     = (Throw (Error (Pip.notFound name pip)), w))
  ∧ (∀ e w0,
       pipHasPackage givenPython name w = true →
       pipInstall givenPython name version isPipx
                  (default true (Pip.user options))
                  (default false (Pip.upgrade options)) w = (Throw e, w0) →
       setupPipPackWithPython givenPython name version options w
       = (Throw (Error (Pip.failedVia name pip e)),
          info (Pip.failedVia name pip e) w0)).
Proof.
  intros Hplat isPipx pip.
  assert (∀ w', setupPipPackSystem name w' = (Ok None, w')) as Hsys.
  { intros w'. unfold Pip.setupPipPackSystem.
    by rewrite (proj2 (String.eqb_neq _ _) Hplat). }
  split_and!; [apply Hsys|..].
  - intros Hhas. rewrite setupPipPackWithPython_unfold.
    unfold Pip.installWithFallback.
    cbv [try_catch mbind eff_bind gets mret eff_ret throw].
    fold (isPipxFor options givenPython w). fold isPipx.
    by rewrite Hhas, Hsys.
  - intros e w0 Hhas Hpip. rewrite setupPipPackWithPython_unfold.
    unfold Pip.installWithFallback.
    cbv [try_catch mbind eff_bind gets mret eff_ret throw modify].
    fold (isPipxFor options givenPython w). fold isPipx.
    by rewrite Hhas, Hpip, Hsys.
Qed.

End Pip.

(** A host without pipx whose pip knows every package; the state is the
    list of the commands that were run. *)
Definition defaults : Pip.SetupPipPackOptions :=
  {| Pip.usePipx := None; Pip.user := None; Pip.upgrade := None;
     Pip.isLibrary := None |}.

Definition pipOn (platform : string) (known : bool)
    (givenPython name : string) : eff (list (list string)) Install.Info :=
  Pip.setupPipPackWithPython (list (list string)) platform (λ _ w, w)
    (λ _ _, false) (λ _ _ _, known) (λ w, (Ok tt, w))
    (λ python args w, (Ok tt, w ++ [python :: args]))
    (λ _, false) (λ _, false) (λ _, false)
    (λ _ w, (Ok (Brew.info "/usr/bin"), w))
    (λ _ w, (Ok (Brew.info "/usr/bin"), w))
    (λ _ w, (Ok (Brew.info "/usr/bin"), w))
    (λ _ w, (Ok ["/usr/local/bin"], w)) (λ dirs _ w, (Ok (default "" (last dirs)), w))
    (λ _ w, (Ok tt, w)) givenPython name None defaults.

Lemma pip_success_skips_system_package_manager_witness :
  pipOn "linux" true "python3" "cmake" []
  = (Ok (Brew.info "/usr/local/bin"),
     [["python3"; "-m"; "pip"; "install"; "--user"; "cmake"]]).
Proof.
  unfold pipOn.
  rewrite (pip_success_skips_system_package_manager
             (list (list string)) "linux" (λ _ w, w)
             (λ _ _, false) (λ _ _ _, true) (λ w, (Ok tt, w))
             (λ python args w, (Ok tt, w ++ [python :: args]))
             (λ _, false) (λ _, false) (λ _, false)
             (λ _ w, (Ok (Brew.info "/usr/bin"), w))
             (λ _ w, (Ok (Brew.info "/usr/bin"), w))
             (λ _ w, (Ok (Brew.info "/usr/bin"), w))
             (λ _ w, (Ok ["/usr/local/bin"], w))
             (λ dirs _ w, (Ok (default "" (last dirs)), w))
             (λ _ w, (Ok tt, w)) "python3" "cmake" None defaults []
             [["python3"; "-m"; "pip"; "install"; "--user"; "cmake"]]);
    reflexivity.
Defined.

Lemma off_linux_pip_failures_are_reported_witness :
  "win32" ≠ "linux"
  ∧ pipOn "win32" false "python3" "cmake" []
    = (Throw (Error "Failed to install cmake as it was not found via pip or the system package manager"),
       []).
Proof.
  assert ("win32" ≠ "linux") as Hplat by done.
  split; [exact Hplat|].
  destruct (off_linux_pip_failures_are_reported
              (list (list string)) "win32" (λ _ w, w)
              (λ _ _, false) (λ _ _ _, false) (λ w, (Ok tt, w))
              (λ python args w, (Ok tt, w ++ [python :: args]))
              (λ _, false) (λ _, false) (λ _, false)
              (λ _ w, (Ok (Brew.info "/usr/bin"), w))
              (λ _ w, (Ok (Brew.info "/usr/bin"), w))
              (λ _ w, (Ok (Brew.info "/usr/bin"), w))
              (λ _ w, (Ok ["/usr/local/bin"], w))
              (λ dirs _ w, (Ok (default "" (last dirs)), w))
              (λ _ w, (Ok tt, w)) "python3" "cmake" None defaults [] Hplat)
    as (_ & Hmissing & _).
  apply Hmissing. reflexivity.
Defined.

End PipMore.

(** ** The directory of an installed executable *)

Module PipBinMore.
Import PipBin.

Section FindBinDir.

Variable pathExists : string → bool.
Variable whichSync : string → option string.
Variable join : string → string → string.
Variable addExeExt : string → string.
Variable dirname : string → string.

Local Notation "'findBinDir'" :=
  (PipBin.findBinDir pathExists whichSync join addExeExt dirname).

(** X16: the directory found for an executable is the first of the given
    directories that holds it; when none does, the directory of the
    executable on the PATH; when it is not on the PATH either, the last of
    the given directories.  No directory is found only when none was given
    and the executable is not on the PATH. *)
Theorem findBinDir_order_of_preference (dirs : list string) (name : string) :
  let exe := addExeExt name in
  let holds dir := pathExists (join dir exe) = true in
  match findBinDir dirs name with
  | Some found =>
      (∃ i, dirs !! i = Some found ∧ holds found
            ∧ ∀ j dir, dirs !! j = Some dir → (j < i)%nat → ¬ holds dir)
      ∨ ((∀ dir, dir ∈ dirs → ¬ holds dir)
         ∧ ((∃ whichDir, whichSync exe = Some whichDir
                         ∧ found = dirname whichDir)
            ∨ (whichSync exe = None ∧ last dirs = Some found)))
  | None => dirs = [] ∧ whichSync (addExeExt name) = None
  end.
Proof.
  intros exe holds. unfold PipBin.findBinDir. fold exe.
  destruct (list_find _ _) as [[i b]|] eqn:Hfind.
  - apply list_find_Some in Hfind as (Hi & -> & Hbefore).
    rewrite list_lookup_fmap in Hi.
    destruct (dirs !! i) as [found|] eqn:Hfound; [|done].
    simpl in Hi. injection Hi as Hi. left. exists i. split_and!; [done..|].
    intros j dir Hj Hlt. apply (Hbefore j); [|done].
    rewrite list_lookup_fmap, Hj. done.
  - apply list_find_None in Hfind.
    assert (∀ dir, dir ∈ dirs → ¬ holds dir) as Hnone.
    { intros dir Hdir. rewrite Forall_forall in Hfind. apply Hfind.
      apply list_elem_of_fmap. by exists dir. }
    destruct (whichSync exe) as [whichDir|] eqn:Hwhich.
    { right. split; [done|]. left. eauto. }
    destruct (last dirs) as [found|] eqn:Hlast.
    + right. split; [done|]. by right.
    + split; [|done]. by apply last_None.
Qed.

End FindBinDir.

End PipBinMore.


(** ** The rc file *)

Module RcFileMore.
Import RcFile.

(** Whether the character occurs in the string. *)
Fixpoint hasChar (sep : ascii) (s : string) : bool :=
  match s with
  | EmptyString => false
  | String c s' => Ascii.eqb c sep || hasChar sep s'
  end.

Lemma split_nonempty (sep : ascii) (s : string) : JS.split sep s ≠ [].
Proof.
  destruct s as [|c s]; simpl; [done|].
  destruct (Ascii.eqb c sep); [done|]. by destruct (JS.split sep s).
Qed.

Lemma concat_cons (sep : ascii) (x : string) (xs : list string) :
  xs ≠ [] →
  String.concat (String sep "") (x :: xs)
  = x +:+ String sep (String.concat (String sep "") xs).
Proof. by destruct xs. Qed.

Lemma concat_cons_char (sep : string) (c : ascii) (w : string)
    (ws : list string) :
  String.concat sep (String c w :: ws) = String c (String.concat sep (w :: ws)).
Proof. by destruct ws. Qed.

(** Joining the pieces of a string gives the string back. *)
Lemma concat_split (sep : ascii) (s : string) :
  String.concat (String sep "") (JS.split sep s) = s.
Proof.
  induction s as [|c s IH]; simpl; [done|].
  destruct (Ascii.eqb_spec c sep) as [->|Hc].
  - rewrite concat_cons by apply split_nonempty. simpl. by rewrite IH.
  - pose proof (split_nonempty sep s) as Hne.
    destruct (JS.split sep s) as [|w ws]; [done|].
    by rewrite concat_cons_char, IH.
Qed.

Lemma split_hasChar (sep : ascii) (s : string) :
  Forall (λ w, hasChar sep w = false) (JS.split sep s).
Proof.
  induction s as [|c s IH]; simpl; [by repeat constructor|].
  destruct (Ascii.eqb c sep) eqn:Hc; [by constructor|].
  pose proof (split_nonempty sep s) as Hne.
  destruct (JS.split sep s) as [|w ws]; [done|].
  inversion_clear IH as [|?? Hw Hws]. constructor; [|done].
  simpl. by rewrite Hc.
Qed.

Lemma split_line (sep : ascii) (w rest : string) :
  hasChar sep w = false →
  JS.split sep (w +:+ String sep rest) = w :: JS.split sep rest.
Proof.
  induction w as [|c w IH]; simpl.
  - intros _. by rewrite Ascii.eqb_refl.
  - intros [Hc Hw]%orb_false_iff. rewrite Hc, IH by done. done.
Qed.

Lemma split_one (sep : ascii) (w : string) :
  hasChar sep w = false → JS.split sep w = [w].
Proof.
  induction w as [|c w IH]; simpl; [done|].
  intros [Hc Hw]%orb_false_iff. by rewrite Hc, IH.
Qed.

(** Splitting a joined list of lines gives the lines back. *)
Lemma split_concat (sep : ascii) (l : list string) :
  l ≠ [] → Forall (λ w, hasChar sep w = false) l →
  JS.split sep (String.concat (String sep "") l) = l.
Proof.
  induction l as [|w l IH]; [done|]. intros _ Hl.
  inversion_clear Hl as [|?? Hw Hrest].
  destruct l as [|w' l]; [by apply split_one|].
  rewrite concat_cons by done.
  rewrite split_line by done. by rewrite IH.
Qed.

Lemma has_decide (s : JSSet.t) (x : string) :
  JSSet.has s x = bool_decide (x ∈ s).
Proof.
  destruct (JSSet.has s x) eqn:Hhas.
  - symmetry. by apply bool_decide_eq_true, JSSet_has_elem_of.
  - symmetry. by apply bool_decide_eq_false, JSSet_has_false.
Qed.

(** The set built from the reversed entries, reversed, drops an entry
    exactly when it occurs again later. *)
Lemma unique_remove_dups (entries : list string) :
  reverse (JSSet.of_array (reverse entries)) = remove_dups entries.
Proof.
  induction entries as [|x l IH]; [done|].
  unfold JSSet.of_array in *. rewrite reverse_cons, foldl_app. simpl.
  unfold JSSet.add at 1. rewrite has_decide.
  assert (x ∈ foldl JSSet.add [] (reverse l) ↔ x ∈ l) as Hin.
  { rewrite <- (elem_of_remove_dups l), <- IH. symmetry. apply elem_of_reverse. }
  destruct (decide_rel elem_of x l) as [Hx|Hx].
  - rewrite bool_decide_eq_true_2 by by apply Hin. done.
  - rewrite bool_decide_eq_false_2 by by rewrite Hin.
    by rewrite reverse_app, IH.
Qed.

Lemma remove_dups_NoDup (l : list string) : NoDup l → remove_dups l = l.
Proof.
  induction 1 as [|x l Hx Hl IH]; simpl; [done|].
  destruct (decide_rel elem_of x l); [done|]. by rewrite IH.
Qed.

Lemma remove_dups_lines (content : string) :
  remove_dups (JS.split newline content) ≠ []
  ∧ Forall (λ w, hasChar newline w = false)
           (remove_dups (JS.split newline content)).
Proof.
  split.
  - pose proof (split_nonempty newline content) as Hne.
    destruct (JS.split newline content) as [|w ws] eqn:E; [done|].
    intros Hnil.
    assert (w ∈ remove_dups (w :: ws)) as Hw
      by (apply elem_of_remove_dups; left).
    rewrite Hnil in Hw. by apply elem_of_nil in Hw.
  - apply Forall_forall. intros w Hw. rewrite elem_of_remove_dups in Hw.
    pose proof (split_hasChar newline content) as Hall.
    rewrite Forall_forall in Hall. exact (Hall w Hw).
Qed.

(** X17: the lines of the finalized content are the lines of the content
    without those that occur again further down: every line is kept once,
    at the place of its last occurrence. *)
Theorem finalizeContent_keeps_last_occurrences (content : string) :
  let lines := JS.split newline content in
  let finalized := JS.split newline (finalizeContent content) in
  finalized = remove_dups lines
  ∧ NoDup finalized
  ∧ (∀ line, line ∈ finalized ↔ line ∈ lines)
  ∧ ∀ before line after,
      lines = before ++ line :: after →
      (line ∈ after → finalized = remove_dups (before ++ after))
      ∧ (line ∉ after →
         ∃ kept, finalized = kept ++ line :: remove_dups after
                 ∧ ∀ l, l ∈ kept → l ∈ before).
Proof.
  intros lines finalized.
  assert (finalized = remove_dups lines) as Hfin.
  { subst finalized. unfold finalizeContent. fold lines.
    rewrite unique_remove_dups.
    destruct (remove_dups_lines content). by apply split_concat. }
  split_and!; [done|rewrite Hfin; apply NoDup_remove_dups|..].
  { intros line. rewrite Hfin. apply elem_of_remove_dups. }
  intros before line after Hlines. rewrite Hfin, Hlines. clear.
  split.
  - intros Hafter. induction before as [|b before IH]; simpl.
    + by destruct (decide_rel elem_of line after).
    + destruct (decide_rel elem_of b (before ++ line :: after)) as [Hb|Hb],
        (decide_rel elem_of b (before ++ after)) as [Hb'|Hb']; try done.
      * exfalso. apply Hb'. apply elem_of_app.
        apply elem_of_app in Hb as [?|[->|?]%elem_of_cons]; auto.
      * exfalso. apply Hb. apply elem_of_app.
        apply elem_of_app in Hb' as [?|?]; [by left|right; by right].
      * by rewrite IH.
  - intros Hafter.
    induction before as [|b before (kept & Heq & Hkept)]; simpl;
      rewrite ?Heq.
    + exists []. destruct (decide_rel elem_of line after); [done|].
      split; [done|].
      by intros l ?%elem_of_nil.
    + destruct (decide_rel elem_of b (before ++ line :: after)).
      * exists kept. split; [done|]. intros l Hl. right. by apply Hkept.
      * exists (b :: kept). split; [done|].
        intros l [->|Hl]%elem_of_cons; [left|right; by apply Hkept].
Qed.

Lemma finalizeContent_NoDup (content : string) :
  NoDup (JS.split newline content) → finalizeContent content = content.
Proof.
  intros Hnd. unfold finalizeContent.
  by rewrite unique_remove_dups, remove_dups_NoDup, concat_split.
Qed.

Lemma finalizeContent_lines_NoDup (content : string) :
  NoDup (JS.split newline (finalizeContent content)).
Proof.
  unfold finalizeContent. rewrite unique_remove_dups.
  destruct (remove_dups_lines content).
  rewrite split_concat by done. apply NoDup_remove_dups.
Qed.

(** X18: finalizing touches the rc file only and does not create it; a
    file whose lines are all different is written back as it is; and
    finalizing a second time changes nothing. *)
Theorem finalizeRC_only_removes_duplicates
    (rcPath : string) (fs : gmap string string) :
  let fs' := finalizeRC rcPath fs in
  (∀ path, path ≠ rcPath → fs' !! path = fs !! path)
  ∧ (fs !! rcPath = None → fs' = fs)
  ∧ (∀ content, fs !! rcPath = Some content →
                NoDup (JS.split newline content) → fs' = fs)
  ∧ finalizeRC rcPath fs' = fs'.
Proof.
  intros fs'. subst fs'. unfold finalizeRC.
  destruct (fs !! rcPath) as [content|] eqn:Hrc.
  - split_and!.
    + intros path Hpath. by apply lookup_insert_ne.
    + done.
    + intros ? [= <-] Hnd. rewrite finalizeContent_NoDup by done.
      by apply insert_id.
    + rewrite lookup_insert_eq.
      rewrite (finalizeContent_NoDup (finalizeContent content))
        by apply finalizeContent_lines_NoDup.
      apply insert_insert_eq.
  - split_and!; [done..|]. by rewrite Hrc.
Qed.

End RcFileMore.

(** ** Sourcing the rc file from the shell profiles *)

Module RcSourceMore.
Import RcSource.

Lemma prefix_refl (s : string) : String.prefix s s = true.
Proof.
  induction s as [|c s IH]; simpl; [done|]. by destruct (ascii_dec c c).
Qed.

Lemma includes_prefix (s sub : string) :
  String.prefix sub s = true → JS.includes s sub = true.
Proof. intros H. destruct s; simpl in *; by rewrite H. Qed.

Lemma includes_cons (c : ascii) (s sub : string) :
  JS.includes (String c s) sub
  = String.prefix sub (String c s) || JS.includes s sub.
Proof. reflexivity. Qed.

Lemma includes_app_l (a s sub : string) :
  JS.includes s sub = true → JS.includes (a +:+ s) sub = true.
Proof.
  intros H. induction a as [|c a IH]; [done|].
  change (String c a +:+ s) with (String c (a +:+ s)).
  rewrite includes_cons, IH. apply orb_true_r.
Qed.

Lemma prefix_app_r (sub s t : string) :
  String.prefix sub s = true → String.prefix sub (s +:+ t) = true.
Proof.
  revert s. induction sub as [|d sub IH]; intros s;
    [intros _; by destruct (s +:+ t)|].
  destruct s as [|c s]; [done|].
  change (String c s +:+ t) with (String c (s +:+ t)). simpl.
  destruct (ascii_dec d c); [apply IH|done].
Qed.

Lemma includes_app_r (s t sub : string) :
  JS.includes s sub = true → JS.includes (s +:+ t) sub = true.
Proof.
  induction s as [|c s IH].
  - simpl. rewrite orb_false_r. intros H. apply includes_prefix.
    by apply (prefix_app_r sub "" t).
  - change (String c s +:+ t) with (String c (s +:+ t)).
    rewrite !includes_cons. intros [Hp|Hi]%orb_true_iff.
    + apply orb_true_iff. left. by apply (prefix_app_r sub (String c s) t).
    + rewrite IH by done. apply orb_true_r.
Qed.

(** What the three functions share: when the file exists and does not
    contain [needle], append [data] and log [message]. *)
Definition appendOnce (path needle data message : string) (s : state)
  : state :=
  match files s !! path with
  | Some content =>
      if negb (JS.includes content needle) then
        info message (appendFile path data s)
      else s
  | None => s
  end.

Lemma addRCHeader_appendOnce (rcPath : string) (s : state) :
  addRCHeader rcPath s
  = appendOnce rcPath rcHeader (nl +:+ rcHeader +:+ nl)
               ("Added " +:+ rcHeader +:+ " to " +:+ rcPath) s.
Proof. reflexivity. Qed.

Lemma sourceRCInBashrc_appendOnce (bashrcPath str : string) (s : state) :
  sourceRCInBashrc bashrcPath str s
  = appendOnce bashrcPath str str (str +:+ " was added to " +:+ bashrcPath) s.
Proof. reflexivity. Qed.

Lemma sourceRcInProfile_appendOnce (profilePath str : string) (s : state) :
  sourceRcInProfile profilePath str s
  = appendOnce profilePath str str (str +:+ " was added to " +:+ profilePath) s.
Proof. reflexivity. Qed.

(** The outcome of one of the three functions on state [s]: the file at
    [path] contains [needle] afterwards if it exists, content is only ever
    appended to, no file is created and no other file is touched, and a
    second run changes nothing. *)
Definition appendsOnce (path needle : string) (f : state → state) : Prop :=
  ∀ s,
    (∀ content, files (f s) !! path = Some content →
                JS.includes content needle = true)
    ∧ (∀ p, match files s !! p with
            | Some content =>
                ∃ added, files (f s) !! p = Some (content +:+ added)
                         ∧ (p ≠ path → added = "")
            | None => files (f s) !! p = None
            end)
    ∧ f (f s) = f s.

Lemma append_empty (s : string) : s +:+ "" = s.
Proof.
  induction s as [|c s IH]; [done|].
  change (String c (s +:+ "") = String c s). by f_equal.
Qed.

Lemma appendOnce_appendsOnce (path needle data message : string) :
  JS.includes data needle = true →
  appendsOnce path needle (appendOnce path needle data message).
Proof.
  intros Hdata s. unfold appendOnce.
  destruct (files s !! path) as [content|] eqn:Hpath.
  - destruct (JS.includes content needle) eqn:Hinc; simpl.
    + split_and!.
      * intros ? [= <-]%(eq_trans (eq_sym Hpath)). done.
      * intros p. destruct (files s !! p) as [c|] eqn:Hp; [|done].
        exists "". by rewrite append_empty.
      * by rewrite Hpath, Hinc.
    + rewrite Hpath. simpl. rewrite lookup_insert_eq.
      rewrite (includes_app_l content data needle Hdata). simpl.
      split_and!.
      * intros ? [= <-]. by apply includes_app_l.
      * intros p. destruct (decide (p = path)) as [->|Hne].
        { rewrite Hpath, lookup_insert_eq. exists data. by split. }
        rewrite lookup_insert_ne by done.
        destruct (files s !! p) as [c|]; [|done].
        exists "". by rewrite append_empty.
      * done.
  - split_and!.
    + intros content Hc. congruence.
    + intros p. destruct (files s !! p) as [c|] eqn:Hp; [|done].
      exists "". by rewrite append_empty.
    + by rewrite Hpath.
Qed.

(** X19: each of the three functions that hook the rc file into the
    shell start-up appends its text at most once.  After the call the
    file, if it exists, contains the marker (the header of the rc file,
    or the sourcing block in .bashrc and .profile); existing content is
    kept and only appended to; a missing file is not created and no other
    file is touched; and calling the function again changes nothing, not
    even the log. *)
Theorem rc_hooks_append_once (rcPath bashrcPath profilePath : string) :
  appendsOnce rcPath rcHeader (addRCHeader rcPath)
  ∧ appendsOnce bashrcPath (sourceRcString rcPath)
                (sourceRCInBashrc bashrcPath (sourceRcString rcPath))
  ∧ appendsOnce profilePath (sourceRcString rcPath)
                (sourceRcInProfile profilePath (sourceRcString rcPath)).
Proof.
  split_and!.
  - apply (appendOnce_appendsOnce rcPath rcHeader (nl +:+ rcHeader +:+ nl)).
    apply (includes_app_l nl), includes_app_r, includes_prefix.
    by vm_compute.
  - apply appendOnce_appendsOnce, includes_prefix, prefix_refl.
  - apply appendOnce_appendsOnce, includes_prefix, prefix_refl.
Qed.

End RcSourceMore.

